(** * Workbench: spectrogram annotation surface of the AudioAnnotator

    A shallow embedding of the [Workbench] React component
    (src/AudioAnnotator/Workbench.js): the tile pyramid builder, the
    pixel-to-domain coordinate transforms, the zoom controller, the
    pointer-driven annotation drawing protocol, and the drawing of the
    canvas and of the time axis as lists of drawing commands.

    Numbers.  A JavaScript [number] that carries a time, a frequency, a pixel
    position or a ratio is an exact rational ([Q]); rounding, infinities and
    NaN are not represented.  Numbers that the component only uses as
    integers (zoom factors, array indices, FFT parameters, tick seconds) are
    [Z], and the pointer-move counter is [nat].

    Effects.  A handler takes the component instance and returns the new
    instance together with the list of calls it makes on its environment
    (the [on...] callbacks of the props, [preventDefault], the redraw
    requested as a [setState] callback).  [setState] is applied at once.
    Page layout is outside the component: a handler that reads
    [getBoundingClientRect] receives the rectangle as an argument. *)

From Stdlib Require Import String List Sorted Bool ZArith QArith Qminmax Qround.
From Stdlib Require Import Ascii DecimalString DecimalPos DecimalZ Permutation.
From Stdlib Require Import Lia Lqa.
Import ListNotations.

(* ------------------------------------------------------------------ *)
(** ** JavaScript built-ins used by the component *)

Module Js.

(** What a call can throw. *)
Inductive Error := TypeError | RangeError.

Inductive result (A : Type) :=
| Ok (a : A)
| Throw (e : Error).
Arguments Ok {A} a.
Arguments Throw {A} e.

Definition bind {A B} (r : result A) (k : A -> result B) : result B :=
  match r with
  | Ok a => k a
  | Throw e => Throw e
  end.

(** [xs.map(f)] where [f] may throw: the first exception escapes. *)
Fixpoint mapM {A B} (f : A -> result B) (xs : list A) : result (list B) :=
  match xs with
  | [] => Ok []
  | x :: xs' =>
      bind (f x) (fun y => bind (mapM f xs') (fun ys => Ok (y :: ys)))
  end.

(** [xs.flatMap(f)]. *)
Definition flatMapM {A B} (f : A -> result (list B)) (xs : list A)
  : result (list B) :=
  bind (mapM f xs) (fun yss => Ok (List.concat yss)).

(** [a < b] on numbers. *)
Definition ltb (a b : Q) : bool :=
  match a ?= b with
  | Lt => true
  | _ => false
  end.

(** [a <= b] on numbers. *)
Definition leb (a b : Q) : bool :=
  match a ?= b with
  | Gt => false
  | _ => true
  end.

(** [xs[i]]: [None] is [undefined], also for a negative index. *)
Definition get {A} (xs : list A) (i : Z) : option A :=
  if (i <? 0)%Z then None else nth_error xs (Z.to_nat i).

(** [xs.findIndex(p)]: the first index whose element satisfies [p],
    [-1] when there is none. *)
Fixpoint findIndex {A} (p : A -> bool) (xs : list A) : Z :=
  match xs with
  | [] => (-1)%Z
  | x :: xs' =>
      if p x then 0%Z
      else let r := findIndex p xs' in
           if (r <? 0)%Z then (-1)%Z else (r + 1)%Z
  end.

(** [xs.sort((a, b) => a - b)] on integers: ascending order. *)
Fixpoint insert (a : Z) (xs : list Z) : list Z :=
  match xs with
  | [] => [a]
  | x :: xs' => if (a <=? x)%Z then a :: xs else x :: insert a xs'
  end.

Definition sort (xs : list Z) : list Z := fold_right insert [] xs.

(** [Math.log2(m)] when the result is an integer, that is when [m] is a
    power of two (on which [Math.log2] is taken to be exact); [None] when
    the result is a fraction. *)
Definition log2_int (m : Z) : option nat :=
  let k := Z.log2 m in
  if (2 ^ k =? m)%Z then Some (Z.to_nat k) else None.

(** [[...Array(n)].map((_, i) => f(i))]: the indices [0 .. n-1]. *)
Definition indices (n : nat) : list Z := map Z.of_nat (seq 0 n).

End Js.

(* ------------------------------------------------------------------ *)
(** ** Data model *)

(** Component dimensions constants. *)
Definition CANVAS_HEIGHT : Q := 512.
Definition CANVAS_WIDTH : Q := 1813.
Definition CONTROLS_AREA_SIZE : Q := 80.
Definition TIME_AXIS_SIZE : Q := 30.
Definition FREQ_AXIS_SIZE : Q := 35.
Definition SCROLLBAR_RESERVED : Q := 20.

(** [Annotation] (AudioAnnotator.js). *)
Record Annotation := {
  id : string;
  annotation : string;
  startTime : Q;
  endTime : Q;
  startFrequency : Q;
  endFrequency : Q;
  active : bool;
}.

(** [Spectrogram]: one tile.  The [Image] object and its URL are left out:
    the tile is identified by the time range it covers. *)
Record Spectrogram := {
  start : Q;
  end_ : Q;
}.

(** [SpectroUrlsParams]: one per-resolution configuration of the props. *)
Record SpectroUrlsParams := {
  conf_nfft : Z;
  conf_winsize : Z;
  conf_overlap : Z;
  urls : list string;
}.

(** [SpectroParams]. *)
Record SpectroParams := {
  cur_nfft : Z;
  cur_winsize : Z;
  cur_overlap : Z;
  cur_zoom : Z;
}.

(** [SpectroDetails]: one zoom level of one resolution.  The three URL
    parts taken from the first URL only feed the image addresses and are
    left out with them. *)
Record SpectroDetails := {
  nfft : Z;
  winsize : Z;
  overlap : Z;
  zoom_factor : Z;
  images : list Spectrogram;
}.

(** The props the modelled methods read. *)
Record WorkbenchProps := {
  currentTime : Q;
  duration : Q;
  props_startFrequency : Q;
  frequencyRange : Q;
  spectroUrlsParams : list SpectroUrlsParams;
}.

Record WorkbenchState := {
  wrapperWidth : Q;
  wrapperHeight : Q;
  timePxRatio : Q;
  freqPxRatio : Q;
  currentParams : SpectroParams;
  currentZoom : Z;
  spectrograms : list SpectroDetails;
  newAnnotation : option Annotation;
}.

(** A canvas element: its [width] and [height] attributes. *)
Record Canvas := {
  width : Q;
  height : Q;
}.

(** [ClientRect], the result of [getBoundingClientRect]. *)
Record ClientRect := {
  rect_left : Q;
  rect_right : Q;
  rect_top : Q;
  rect_bottom : Q;
  rect_width : Q;
}.

(** The component instance: props, state, the two canvases it resizes and
    its drag-tracking fields. *)
Record Workbench := {
  props : WorkbenchProps;
  state : WorkbenchState;
  canvas : Canvas;
  timeAxis : Canvas;
  isDrawing : bool;
  drawPxMove : nat;
  drawStartTime : Q;
  drawStartFrequency : Q;
}.

Record PointerEvent := {
  clientX : Q;
  clientY : Q;
}.

Record WheelEvent := {
  deltaY : Q;
}.

(** Calls a handler makes on its environment. *)
Inductive Call :=
| onAnnotationCreated (a : Annotation)
| onSeek (t : Q)
| preventDefault
| requestRenderCanvas.

(** [setState] and the partial states it is given. *)
Definition setState (s : WorkbenchState) (w : Workbench) : Workbench :=
  {| props := props w;
     state := s;
     canvas := canvas w;
     timeAxis := timeAxis w;
     isDrawing := isDrawing w;
     drawPxMove := drawPxMove w;
     drawStartTime := drawStartTime w;
     drawStartFrequency := drawStartFrequency w |}.

Definition with_spectrograms (sp : list SpectroDetails) (s : WorkbenchState)
  : WorkbenchState :=
  {| wrapperWidth := wrapperWidth s;
     wrapperHeight := wrapperHeight s;
     timePxRatio := timePxRatio s;
     freqPxRatio := freqPxRatio s;
     currentParams := currentParams s;
     currentZoom := currentZoom s;
     spectrograms := sp;
     newAnnotation := newAnnotation s |}.

Definition with_newAnnotation (a : option Annotation) (s : WorkbenchState)
  : WorkbenchState :=
  {| wrapperWidth := wrapperWidth s;
     wrapperHeight := wrapperHeight s;
     timePxRatio := timePxRatio s;
     freqPxRatio := freqPxRatio s;
     currentParams := currentParams s;
     currentZoom := currentZoom s;
     spectrograms := spectrograms s;
     newAnnotation := a |}.

Definition with_zoom (z : Z) (ratio : Q) (s : WorkbenchState)
  : WorkbenchState :=
  {| wrapperWidth := wrapperWidth s;
     wrapperHeight := wrapperHeight s;
     timePxRatio := ratio;
     freqPxRatio := freqPxRatio s;
     currentParams := currentParams s;
     currentZoom := z;
     spectrograms := spectrograms s;
     newAnnotation := newAnnotation s |}.

(** Assignments to the instance fields and to the canvases' [width]. *)
Definition set_widths (px : Q) (w : Workbench) : Workbench :=
  {| props := props w;
     state := state w;
     canvas := {| width := px; height := height (canvas w) |};
     timeAxis := {| width := px; height := height (timeAxis w) |};
     isDrawing := isDrawing w;
     drawPxMove := drawPxMove w;
     drawStartTime := drawStartTime w;
     drawStartFrequency := drawStartFrequency w |}.

Definition set_drawing (drawing : bool) (moves : nat) (w : Workbench)
  : Workbench :=
  {| props := props w;
     state := state w;
     canvas := canvas w;
     timeAxis := timeAxis w;
     isDrawing := drawing;
     drawPxMove := moves;
     drawStartTime := drawStartTime w;
     drawStartFrequency := drawStartFrequency w |}.

Definition set_drawStart (t f : Q) (w : Workbench) : Workbench :=
  {| props := props w;
     state := state w;
     canvas := canvas w;
     timeAxis := timeAxis w;
     isDrawing := isDrawing w;
     drawPxMove := drawPxMove w;
     drawStartTime := t;
     drawStartFrequency := f |}.

(** The constructor. *)
Definition initialParams (p : WorkbenchProps) : SpectroParams :=
  match spectroUrlsParams p with
  | params :: _ =>
      {| cur_nfft := conf_nfft params; cur_winsize := conf_winsize params;
         cur_overlap := conf_overlap params; cur_zoom := 1 |}
  | [] => {| cur_nfft := 1; cur_winsize := 1; cur_overlap := 1; cur_zoom := 1 |}
  end.

Definition constructor (p : WorkbenchProps) : Workbench :=
  {| props := p;
     state :=
       {| wrapperWidth := CANVAS_WIDTH;
          wrapperHeight := CANVAS_HEIGHT + TIME_AXIS_SIZE + SCROLLBAR_RESERVED;
          timePxRatio := CANVAS_WIDTH / duration p;
          freqPxRatio := CANVAS_HEIGHT / frequencyRange p;
          currentParams := initialParams p;
          currentZoom := 1;
          spectrograms := [];
          newAnnotation := None |};
     canvas := {| width := CANVAS_WIDTH; height := CANVAS_HEIGHT |};
     timeAxis := {| width := CANVAS_WIDTH; height := TIME_AXIS_SIZE |};
     isDrawing := false;
     drawPxMove := 0;
     drawStartTime := 0;
     drawStartFrequency := 0 |}.

(* ------------------------------------------------------------------ *)
(** ** Tile pyramid builder *)

(** The tiles of one zoom level: [zoom] tiles of [duration / zoom] seconds. *)
Definition buildImages (duration : Q) (zoom : Z) : list Spectrogram :=
  let step := duration / inject_Z zoom in
  map (fun i => {| start := inject_Z i * step;
                   end_ := inject_Z (i + 1) * step |})
      (Js.indices (Z.to_nat zoom)).

(** The callback of [flatMap]: the zoom levels of one configuration.
    [conf.urls[0].match] throws on an empty URL list, and [Array(nbZooms)]
    throws when [Math.log2(conf.urls.length + 1)] is not an integer. *)
Definition buildConfDetails (duration : Q) (conf : SpectroUrlsParams)
  : Js.result (list SpectroDetails) :=
  match urls conf with
  | [] => Js.Throw Js.TypeError
  | _ :: _ =>
      match Js.log2_int (Z.of_nat (length (urls conf)) + 1) with
      | None => Js.Throw Js.RangeError
      | Some nbZooms =>
          let zoomLevels := map (fun i => 2 ^ i)%Z (Js.indices nbZooms) in
          Js.Ok (map (fun zoom =>
                        {| nfft := conf_nfft conf;
                           winsize := conf_winsize conf;
                           overlap := conf_overlap conf;
                           zoom_factor := zoom;
                           images := buildImages duration zoom |})
                     zoomLevels)
      end
  end.

Definition buildSpectrogramsDetails (p : WorkbenchProps)
  : Js.result (list SpectroDetails) :=
  Js.flatMapM (buildConfDetails (duration p)) (spectroUrlsParams p).

(** [componentDidMount]: the tiles of every configuration are built and
    stored (the document-level listeners are the [step] function below). *)
Definition componentDidMount (w : Workbench) : Js.result Workbench :=
  Js.bind (buildSpectrogramsDetails (props w))
          (fun s => Js.Ok (setState (with_spectrograms s (state w)) w)).

(* ------------------------------------------------------------------ *)
(** ** Coordinate transform *)

Definition getTimeFromClientX (bounds : ClientRect) (w : Workbench)
  (clientX : Q) : Q :=
  let offset :=
    if Js.ltb clientX (rect_left bounds) then 0
    else if Js.ltb (rect_right bounds) clientX then width (canvas w)
    else clientX - rect_left bounds in
  offset / timePxRatio (state w).

Definition getFrequencyFromClientY (bounds : ClientRect) (w : Workbench)
  (clientY : Q) : Q :=
  let offset :=
    if Js.ltb clientY (rect_top bounds) then height (canvas w)
    else if Js.ltb (rect_bottom bounds) clientY then 0
    else rect_bottom bounds - clientY in
  props_startFrequency (props w) + offset / freqPxRatio (state w).

Definition seekTo (bounds : ClientRect) (event : PointerEvent) (w : Workbench)
  : Workbench * list Call :=
  (w, [onSeek (getTimeFromClientX bounds w (clientX event))]).

(* ------------------------------------------------------------------ *)
(** ** Zoom controller *)

Definition getCurrentDetails (w : Workbench) : list SpectroDetails :=
  filter (fun details =>
            (cur_nfft (currentParams (state w)) =? nfft details)%Z
            && (cur_winsize (currentParams (state w)) =? winsize details)%Z
            && (cur_overlap (currentParams (state w)) =? overlap details)%Z)
         (spectrograms (state w)).

(** The local [zoomLevels] of [zoom]. *)
Definition zoomLevels (w : Workbench) : list Z :=
  Js.sort (map zoom_factor (getCurrentDetails w)).

(** The local [oldZoomIdx] of [zoom]. *)
Definition oldZoomIdx (w : Workbench) : Z :=
  Js.findIndex (fun factor => (factor =? currentZoom (state w))%Z)
               (zoomLevels w).

(** The local [newZoom] of [zoom]; [None] is [undefined], read past the end
    of [zoomLevels]. *)
Definition newZoom (direction : Z) (w : Workbench) : option Z :=
  if (direction >? 0)%Z && (oldZoomIdx w <? 4)%Z then
    Js.get (zoomLevels w) (oldZoomIdx w + 1)
  else if (direction <? 0)%Z && (oldZoomIdx w >? 0)%Z then
    Js.get (zoomLevels w) (oldZoomIdx w - 1)
  else Some (currentZoom (state w)).

(** [zoom(direction)].  When [newZoom] is [undefined] the source stores
    [undefined] as zoom factor and NaN as widths and ratio; these are not
    values of the state modelled here, and the result is [None]. *)
Definition zoom (direction : Z) (w : Workbench) : option Workbench :=
  match newZoom direction w with
  | None => None
  | Some z =>
      let w1 := set_widths (wrapperWidth (state w) * inject_Z z) w in
      Some (setState
              (with_zoom z
                 (wrapperWidth (state w1) * inject_Z z / duration (props w1))
                 (state w1))
              w1)
  end.

Definition onWheelZoom (event : WheelEvent) (w : Workbench)
  : option (Workbench * list Call) :=
  let zoomed :=
    if Js.ltb (deltaY event) 0 then zoom 1 w
    else if Js.ltb 0 (deltaY event) then zoom (-1) w
    else Some w in
  option_map (fun w' => (w', [preventDefault])) zoomed.

(** [n] presses of a zoom button. *)
Fixpoint zoom_times (n : nat) (direction : Z) (w : Workbench)
  : option Workbench :=
  match n with
  | O => Some w
  | S n' =>
      match zoom direction w with
      | Some w' => zoom_times n' direction w'
      | None => None
      end
  end.

(* ------------------------------------------------------------------ *)
(** ** Annotation draw state machine *)

Definition onStartNewAnnotation (bounds : ClientRect) (event : PointerEvent)
  (w : Workbench) : Workbench * list Call :=
  let newTime := getTimeFromClientX bounds w (clientX event) in
  let newFrequency := getFrequencyFromClientY bounds w (clientY event) in
  let w1 := set_drawStart newTime newFrequency (set_drawing true 0 w) in
  let newAnnotation :=
    {| id := ""; annotation := "";
       startTime := newTime; endTime := newTime;
       startFrequency := newFrequency; endFrequency := newFrequency;
       active := false |} in
  (setState (with_newAnnotation (Some newAnnotation) (state w1)) w1, []).

Definition computeNewAnnotation (bounds : ClientRect) (e : PointerEvent)
  (w : Workbench) : Annotation :=
  let currentTime := getTimeFromClientX bounds w (clientX e) in
  let currentFrequency := getFrequencyFromClientY bounds w (clientY e) in
  {| id := ""; annotation := "";
     startTime := Qmin currentTime (drawStartTime w);
     endTime := Qmax currentTime (drawStartTime w);
     startFrequency := Qmin currentFrequency (drawStartFrequency w);
     endFrequency := Qmax currentFrequency (drawStartFrequency w);
     active := false |}.

(** [this.isDrawing && ++this.drawPxMove > 2]: the counter is incremented
    only while drawing. *)
Definition onUpdateNewAnnotation (bounds : ClientRect) (e : PointerEvent)
  (w : Workbench) : Workbench * list Call :=
  if isDrawing w then
    let w1 := set_drawing (isDrawing w) (S (drawPxMove w)) w in
    if (2 <? drawPxMove w1)%nat then
      (setState
         (with_newAnnotation (Some (computeNewAnnotation bounds e w1))
                             (state w1))
         w1,
       [requestRenderCanvas])
    else (w1, [])
  else (w, []).

Definition onEndNewAnnotation (bounds : ClientRect) (e : PointerEvent)
  (w : Workbench) : Workbench * list Call :=
  let (w1, calls) :=
    if isDrawing w && (2 <? drawPxMove w)%nat then
      (setState (with_newAnnotation None (state w)) w,
       [onAnnotationCreated (computeNewAnnotation bounds e w);
        requestRenderCanvas])
    else (w, []) in
  (set_drawing false 0 w1, calls).

(** The pointer events the component listens to, each with the bounding
    rectangle of the canvas at the time it is handled. *)
Inductive Event :=
| PointerDown (bounds : ClientRect) (e : PointerEvent)
| PointerMove (bounds : ClientRect) (e : PointerEvent)
| PointerUp (bounds : ClientRect) (e : PointerEvent)
| Click (bounds : ClientRect) (e : PointerEvent).

Definition dispatch (ev : Event) (w : Workbench) : Workbench * list Call :=
  match ev with
  | PointerDown bounds e => onStartNewAnnotation bounds e w
  | PointerMove bounds e => onUpdateNewAnnotation bounds e w
  | PointerUp bounds e => onEndNewAnnotation bounds e w
  | Click bounds e => seekTo bounds e w
  end.

(** The event loop: handlers run one after the other, their calls are
    collected in order. *)
Fixpoint run (evs : list Event) (w : Workbench) : Workbench * list Call :=
  match evs with
  | [] => (w, [])
  | ev :: evs' =>
      let (w1, calls1) := dispatch ev w in
      let (w2, calls2) := run evs' w1 in
      (w2, calls1 ++ calls2)
  end.

(** A drag gesture: pointer-down, the moves, pointer-up. *)
Definition gesture (down : ClientRect * PointerEvent)
  (moves : list (ClientRect * PointerEvent)) (up : ClientRect * PointerEvent)
  : list Event :=
  PointerDown (fst down) (snd down)
  :: map (fun m => PointerMove (fst m) (snd m)) moves
  ++ [PointerUp (fst up) (snd up)].

(** The annotations handed to [onAnnotationCreated], in order. *)
Definition created (calls : list Call) : list Annotation :=
  flat_map (fun c => match c with
                     | onAnnotationCreated a => [a]
                     | _ => []
                     end) calls.

(* ------------------------------------------------------------------ *)
(** ** Renderer *)

Inductive DrawCmd :=
| clearRect (x y w h : Q)
| fillRect (x y w h : Q)
| strokeRect (x y w h : Q)
| drawImage (tile : Spectrogram) (x y w h : Q)
| fillText (seconds : Z) (x y : Q).

(** The locals [(step, bigStep)] of [renderTimeAxis], chosen from the
    duration on screen. *)
Definition timeAxisSteps (w : Workbench) : Z * Z :=
  let durationOnScreen := wrapperWidth (state w) / timePxRatio (state w) in
  if Js.leb durationOnScreen 60 then (1, 5)%Z
  else if Js.ltb 60 durationOnScreen && Js.leb durationOnScreen 120
       then (2, 5)%Z
  else if Js.ltb 120 durationOnScreen && Js.leb durationOnScreen 240
       then (4, 5)%Z
  else (10, 6)%Z.

(** The values of [i] in [for (i = a; i <= b; i++)]. *)
Definition range (a b : Z) : list Z :=
  map (fun k => (a + Z.of_nat k)%Z) (seq 0 (Z.to_nat (b - a + 1))).

(** [renderTimeAxis]: [bounds] is the rectangle of the time axis,
    [canvasBounds] the one of the canvas.  A label is recorded by the second
    it stands for ([utils.formatTimestamp] turns it into text). *)
Definition renderTimeAxis (bounds canvasBounds : ClientRect) (w : Workbench)
  : list DrawCmd :=
  let (step, bigStep) := timeAxisSteps w in
  let startTime :=
    Qceiling (getTimeFromClientX canvasBounds w (rect_left bounds)) in
  let endTime :=
    Qfloor (getTimeFromClientX canvasBounds w (rect_right bounds)) in
  clearRect 0 0 (width (timeAxis w)) (height (timeAxis w))
  :: flat_map
       (fun i =>
          if (Z.rem i step =? 0)%Z then
            let x := inject_Z (i - startTime) * timePxRatio (state w) in
            let xTxt := x - 25 in
            let xTxt :=
              if Js.ltb xTxt 0 then xTxt + 25
              else if Js.leb (rect_width bounds - 30) xTxt then xTxt - 25
              else xTxt in
            if (Z.rem i bigStep =? 0)%Z
            then [fillRect x 0 2 15; fillText i xTxt 25]
            else [fillRect x 0 1 10]
          else [])
       (range startTime endTime).

(** The rectangle [renderCanvas] strokes for the annotation being drawn. *)
Definition newAnnotationRect (w : Workbench) (ann : Annotation) : DrawCmd :=
  let x := Qfloor (startTime ann * timePxRatio (state w)) in
  let y := Qfloor (height (canvas w)
                   - startFrequency ann * freqPxRatio (state w)) in
  let width := Qfloor ((endTime ann - startTime ann)
                       * timePxRatio (state w)) in
  let height := (- Qfloor ((endFrequency ann - startFrequency ann)
                           * freqPxRatio (state w)))%Z in
  strokeRect (inject_Z x) (inject_Z y) (inject_Z width) (inject_Z height).

(** [renderCanvas]; [complete] tells which images have finished loading. *)
Definition renderCanvas (complete : Spectrogram -> bool) (w : Workbench)
  : list DrawCmd :=
  [clearRect 0 0 (width (canvas w)) (height (canvas w))]
  ++ match find (fun details =>
                   (zoom_factor details =? currentZoom (state w))%Z)
                (getCurrentDetails w) with
     | Some spectrograms =>
         flat_map
           (fun spectro =>
              if complete spectro then
                [drawImage spectro
                   (start spectro * timePxRatio (state w)) 0
                   (inject_Z (Qfloor ((end_ spectro - start spectro)
                                      * timePxRatio (state w))))
                   (height (canvas w))]
              else [])
           (images spectrograms)
     | None => []
     end
  ++ [fillRect
        (inject_Z (Qfloor (width (canvas w) * currentTime (props w)
                           / duration (props w))))
        0 1 (height (canvas w))]
  ++ match newAnnotation (state w) with
     | Some ann => [newAnnotationRect w ann]
     | None => []
     end.

(* ------------------------------------------------------------------ *)
(** ** Properties stated over the model *)

(** Tile [i] of a level of factor [z] covers [[i*d/z, (i+1)*d/z)]. *)
Definition covers (d : Q) (z : Z) (tiles : list Spectrogram) : Prop :=
  length tiles = Z.to_nat z /\
  forall i, (0 <= i < z)%Z ->
    exists tile, Js.get tiles i = Some tile /\
      start tile == inject_Z i * d / inject_Z z /\
      end_ tile == inject_Z (i + 1) * d / inject_Z z.

(** Each tile ends where the next one starts. *)
Definition contiguous (tiles : list Spectrogram) : Prop :=
  forall i a b, Js.get tiles i = Some a -> Js.get tiles (i + 1) = Some b ->
    end_ a = start b.

(** No two tiles share a point: an earlier tile ends before a later starts,
    and no tile is empty. *)
Definition non_overlapping (tiles : list Spectrogram) : Prop :=
  forall i j a b, (i < j)%Z ->
    Js.get tiles i = Some a -> Js.get tiles j = Some b ->
    start a < end_ a /\ end_ a <= start b /\ start b < end_ b.

(** The first tile starts at [0] and the last one ends at [d]. *)
Definition spans (d : Q) (tiles : list Spectrogram) : Prop :=
  exists first last_,
    Js.get tiles 0 = Some first /\
    Js.get tiles (Z.of_nat (length tiles) - 1) = Some last_ /\
    start first == 0 /\ end_ last_ == d.

(** A list of integers in strictly ascending order. *)
Definition ascending (xs : list Z) : Prop :=
  forall i j a b, (i < j)%Z ->
    Js.get xs i = Some a -> Js.get xs j = Some b -> (a < b)%Z.

(** The zero-width draft [onStartNewAnnotation] stores at point [(t, f)]. *)
Definition pointDraft (t f : Q) : Annotation :=
  {| id := ""; annotation := "";
     startTime := t; endTime := t;
     startFrequency := f; endFrequency := f;
     active := false |}.

(** What the coordinate transforms read of an instance. *)
Definition same_view (w w' : Workbench) : Prop :=
  props w' = props w /\
  canvas w' = canvas w /\
  timePxRatio (state w') = timePxRatio (state w) /\
  freqPxRatio (state w') = freqPxRatio (state w).

(** The pointer-down and pointer-move part of a drag gesture. *)
Definition dragging (down : ClientRect * PointerEvent)
  (moves : list (ClientRect * PointerEvent)) : list Event :=
  PointerDown (fst down) (snd down)
  :: map (fun m => PointerMove (fst m) (snd m)) moves.

(** The rectangle between the point recorded at pointer-down and the
    current point, both taken through the coordinate transforms of [w]. *)
Definition normalized (w : Workbench) (origin current : ClientRect * PointerEvent)
  (a : Annotation) : Prop :=
  let t0 := getTimeFromClientX (fst origin) w (clientX (snd origin)) in
  let f0 := getFrequencyFromClientY (fst origin) w (clientY (snd origin)) in
  let t1 := getTimeFromClientX (fst current) w (clientX (snd current)) in
  let f1 := getFrequencyFromClientY (fst current) w (clientY (snd current)) in
  startTime a == Qmin t0 t1 /\ endTime a == Qmax t0 t1 /\
  startFrequency a == Qmin f0 f1 /\ endFrequency a == Qmax f0 f1.

(* ------------------------------------------------------------------ *)
(** ** Sample inputs *)

Module Sample.

(** A configuration with [n] tile URLs. *)
Definition conf (n : nat) : SpectroUrlsParams :=
  {| conf_nfft := 4096; conf_winsize := 2000; conf_overlap := 90;
     urls := repeat "http://host/spectro/tile_0.0_900.0.png"%string n |}.

(** Props of a recording of [d] seconds with [n] tile URLs. *)
Definition sprops (d : Q) (n : nat) : WorkbenchProps :=
  {| currentTime := 0; duration := d; props_startFrequency := 0;
     frequencyRange := 64000; spectroUrlsParams := [conf n] |}.

(** The mounted component. *)
Definition mounted (d : Q) (n : nat) : Workbench :=
  match componentDidMount (constructor (sprops d n)) with
  | Js.Ok w => w
  | Js.Throw _ => constructor (sprops d n)
  end.

(** The canvas laid out at its attribute size, 35px from the left of the
    viewport and 80px from its top. *)
Definition bounds : ClientRect :=
  {| rect_left := 35; rect_right := 1848; rect_top := 80;
     rect_bottom := 592; rect_width := 1813 |}.

Definition at_ (x y : Q) : ClientRect * PointerEvent :=
  (bounds, {| clientX := x; clientY := y |}).

Definition wheel (dy : Q) : WheelEvent := {| deltaY := dy |}.

(** The mounted component after one press of the zoom-in button. *)
Definition zoomed (d : Q) (n : nat) : Workbench :=
  match zoom 1 (mounted d n) with
  | Some w => w
  | None => mounted d n
  end.

(** The zoom factor a handler leaves, when it returns. *)
Definition factor_after (r : option (Workbench * list Call)) : option Z :=
  option_map (fun r => currentZoom (state (fst r))) r.

End Sample.

(* ------------------------------------------------------------------ *)
(** ** The rest of the Workbench *)

(** The values of [i] in [for (i = a; i <= b; i += step)], [step > 0]. *)
Definition range_by (a b step : Z) : list Z :=
  map (fun k => (a + step * Z.of_nat k)%Z)
      (seq 0 (Z.to_nat ((b - a) / step + 1))).

(** [renderFreqAxis].  The canvas of the frequency axis keeps the size
    [render] gives it, [FREQ_AXIS_SIZE] by [CANVAS_HEIGHT].  A label is
    recorded by the frequency it stands for. *)
Definition renderFreqAxis (w : Workbench) : list DrawCmd :=
  let step := 500%Z in
  let bigStep := 2000%Z in
  let startFreq := Qceiling (props_startFrequency (props w)) in
  let endFreq :=
    Qfloor (props_startFrequency (props w) + frequencyRange (props w)) in
  clearRect 0 0 FREQ_AXIS_SIZE CANVAS_HEIGHT
  :: flat_map
       (fun i =>
          if (Z.rem i step =? 0)%Z then
            let y := CANVAS_HEIGHT
                     - inject_Z (i - startFreq) * freqPxRatio (state w) - 2 in
            let yTxt := y - 3 in
            if (Z.rem i bigStep =? 0)%Z
            then [fillRect (FREQ_AXIS_SIZE - 15) y 15 2; fillText i 0 yTxt]
            else [fillRect (FREQ_AXIS_SIZE - 10) y 10 1]
          else [])
       (range_by startFreq endFreq 100).

(** What [renderRegion] hands to the [Region] widget of an annotation (the
    colour of its tag and the callbacks are left out). *)
Record RegionProps := {
  region_annotation : Annotation;
  region_timePxRatio : Q;
  region_freqPxRatio : Q;
  offsetTop : Q;
  offsetLeft : Q;
}.

Definition renderRegion (ann : Annotation) (w : Workbench) : RegionProps :=
  let offsetTop := CANVAS_HEIGHT - endFrequency ann * freqPxRatio (state w) in
  let offsetLeft := startTime ann * timePxRatio (state w) in
  {| region_annotation := ann;
     region_timePxRatio := timePxRatio (state w);
     region_freqPxRatio := freqPxRatio (state w);
     offsetTop := offsetTop;
     offsetLeft := offsetLeft |}.

(** The parent renders the component again with another [currentTime]. *)
Definition receiveCurrentTime (t : Q) (w : Workbench) : Workbench :=
  {| props :=
       {| currentTime := t;
          duration := duration (props w);
          props_startFrequency := props_startFrequency (props w);
          frequencyRange := frequencyRange (props w);
          spectroUrlsParams := spectroUrlsParams (props w) |};
     state := state w;
     canvas := canvas w;
     timeAxis := timeAxis w;
     isDrawing := isDrawing w;
     drawPxMove := drawPxMove w;
     drawStartTime := drawStartTime w;
     drawStartFrequency := drawStartFrequency w |}.

(** Everything that happens to an instance once constructed: mounting, the
    pointer events, the two zoom buttons ([zoom(1)] and [zoom(-1)]), the
    wheel, and a new [currentTime] from the parent. *)
Inductive Action :=
| Mount
| Pointer (ev : Event)
| ZoomButton (direction : Z)
| Wheel (event : WheelEvent)
| CurrentTime (t : Q).

(** [None] when the handler throws ([Mount]) or leaves the typed state
    ([zoom] with an undefined factor). *)
Definition perform (a : Action) (w : Workbench)
  : option (Workbench * list Call) :=
  match a with
  | Mount =>
      match componentDidMount w with
      | Js.Ok w' => Some (w', [])
      | Js.Throw _ => None
      end
  | Pointer ev => Some (dispatch ev w)
  | ZoomButton direction => option_map (fun w' => (w', [])) (zoom direction w)
  | Wheel event => onWheelZoom event w
  | CurrentTime t => Some (receiveCurrentTime t w, [])
  end.

Fixpoint perform_all (acts : list Action) (w : Workbench)
  : option (Workbench * list Call) :=
  match acts with
  | [] => Some (w, [])
  | a :: acts' =>
      match perform a w with
      | Some (w1, calls1) =>
          match perform_all acts' w1 with
          | Some (w2, calls2) => Some (w2, calls1 ++ calls2)
          | None => None
          end
      | None => None
      end
  end.

(** The sizes and ratios agree with the zoom factor, and what zooming must
    not touch is as the constructor left it. *)
Definition view_invariant (w : Workbench) : Prop :=
  wrapperWidth (state w) = CANVAS_WIDTH /\
  wrapperHeight (state w)
  = CANVAS_HEIGHT + TIME_AXIS_SIZE + SCROLLBAR_RESERVED /\
  height (canvas w) = CANVAS_HEIGHT /\
  height (timeAxis w) = TIME_AXIS_SIZE /\
  freqPxRatio (state w) = CANVAS_HEIGHT / frequencyRange (props w) /\
  width (canvas w)
  == wrapperWidth (state w) * inject_Z (currentZoom (state w)) /\
  width (timeAxis w)
  == wrapperWidth (state w) * inject_Z (currentZoom (state w)) /\
  timePxRatio (state w)
  == wrapperWidth (state w) * inject_Z (currentZoom (state w))
     / duration (props w).




(** The tiles are those of the props, and the zoom factor is one of the
    levels of the current resolution. *)
Definition pyramid_invariant (w : Workbench) : Prop :=
  buildSpectrogramsDetails (props w) = Js.Ok (spectrograms (state w)) /\
  In (currentZoom (state w)) (zoomLevels w) /\
  Forall (fun details => (0 < zoom_factor details)%Z)
         (spectrograms (state w)).


(** A recording whose frequency window starts off the 100 Hz grid. *)
Definition off_grid : Workbench :=
  constructor
    {| currentTime := 0; duration := 900; props_startFrequency := 50;
       frequencyRange := 8000; spectroUrlsParams := [Sample.conf 7] |}.


(* ------------------------------------------------------------------ *)
(** ** AudioAnnotator: the annotation store and the player

    The parent component (src/AudioAnnotator/AudioAnnotator.js) owns the
    annotations and the playback state; the Workbench reports to it through
    the callbacks of its props.  Loading the task, the network replies and
    the page markup are left out.  Strings are sequences of code units
    below 256. *)

Module Annotator.

(** [parseInt(s, 10)]: leading white space is skipped, then an optional
    sign, then the longest run of decimal digits is read; [None] is NaN (no
    digit).  The value is exact (the source rounds beyond 2^53). *)
Definition isWhiteSpace (c : ascii) : bool :=
  let n := nat_of_ascii c in
  (n =? 9)%nat || (n =? 10)%nat || (n =? 11)%nat || (n =? 12)%nat
  || (n =? 13)%nat || (n =? 32)%nat || (n =? 160)%nat.

Fixpoint trimStart (s : string) : string :=
  match s with
  | String c s' => if isWhiteSpace c then trimStart s' else s
  | EmptyString => s
  end.

Definition isDigit (c : ascii) : bool :=
  let n := nat_of_ascii c in (48 <=? n)%nat && (n <=? 57)%nat.

Fixpoint digitPrefix (s : string) : string :=
  match s with
  | String c s' => if isDigit c then String c (digitPrefix s') else EmptyString
  | EmptyString => EmptyString
  end.

Definition parseInt (s : string) : option Z :=
  let trimmed := trimStart s in
  let (sign, rest) :=
    match trimmed with
    | String "-" r => ((-1)%Z, r)
    | String "+" r => (1%Z, r)
    | _ => (1%Z, trimmed)
    end in
  match digitPrefix rest with
  | EmptyString => None
  | digits =>
      option_map (fun u => (sign * Z.of_uint u)%Z)
                 (NilEmpty.uint_of_string digits)
  end.

(** [n.toString()] for an integer [n] (below 10^21 in absolute value). *)
Definition toString (n : Z) : string := NilZero.string_of_int (Z.to_int n).

Record ToastMsg := {
  msg : string;
  lvl : string;
}.

(** The state the modelled methods read or write ([error], [isLoading],
    [duration], [frequencyRange] and [task] are left out). *)
Record State := {
  toastMsg : option ToastMsg;
  isPlaying : bool;
  stopTime : option Q;
  currentTime : Q;
  taskStartTime : Z;
  annotations : list Annotation;
}.

(** One annotation of the body sent by [submitAnnotations]. *)
Record CleanAnnotation := {
  clean_id : string;
  clean_start : Q;
  clean_end : Q;
  clean_annotation : string;
  clean_startFrequency : Q;
  clean_endFrequency : Q;
}.

(** What the methods do to the audio element and to the server. *)
Inductive Effect :=
| audioSetCurrentTime (t : Q)
| audioPlay
| audioPause
| postUpdateResults (body : list CleanAnnotation)
                    (task_start_time task_end_time : Z).

(** The state of the constructor, created at [now] milliseconds. *)
Definition initial (now : Z) : State :=
  {| toastMsg := None; isPlaying := false; stopTime := None;
     currentTime := 0; taskStartTime := now; annotations := [] |}.

(** [setState] with one key or two. *)
Definition setAnnotations (anns : list Annotation) (s : State) : State :=
  {| toastMsg := toastMsg s; isPlaying := isPlaying s;
     stopTime := stopTime s; currentTime := currentTime s;
     taskStartTime := taskStartTime s; annotations := anns |}.

Definition setToastMsg (t : option ToastMsg) (s : State) : State :=
  {| toastMsg := t; isPlaying := isPlaying s;
     stopTime := stopTime s; currentTime := currentTime s;
     taskStartTime := taskStartTime s; annotations := annotations s |}.

Definition setPlaying (playing : bool) (stop : option Q) (s : State)
  : State :=
  {| toastMsg := toastMsg s; isPlaying := playing;
     stopTime := stop; currentTime := currentTime s;
     taskStartTime := taskStartTime s; annotations := annotations s |}.

Definition setCurrentTime (seconds : Q) (s : State) : State :=
  {| toastMsg := toastMsg s; isPlaying := isPlaying s;
     stopTime := stopTime s; currentTime := seconds;
     taskStartTime := taskStartTime s; annotations := annotations s |}.

(** [Object.assign({}, a, {active: b})] and its like. *)
Definition assign_active (b : bool) (a : Annotation) : Annotation :=
  {| id := id a; annotation := annotation a;
     startTime := startTime a; endTime := endTime a;
     startFrequency := startFrequency a; endFrequency := endFrequency a;
     active := b |}.

Definition assign_id (i : string) (a : Annotation) : Annotation :=
  {| id := i; annotation := annotation a;
     startTime := startTime a; endTime := endTime a;
     startFrequency := startFrequency a; endFrequency := endFrequency a;
     active := active a |}.

Definition assign_annotation (tag : string) (a : Annotation) : Annotation :=
  {| id := id a; annotation := tag;
     startTime := startTime a; endTime := endTime a;
     startFrequency := startFrequency a; endFrequency := endFrequency a;
     active := active a |}.

(** [ann.id !== other.id]. *)
Definition other_id (i : string) (ann : Annotation) : bool :=
  negb (id ann =? i)%string.

Definition activateAnnotation (annotation : Annotation) (s : State)
  : State :=
  let activated := assign_active true annotation in
  setAnnotations
    (map (assign_active false)
         (filter (other_id (id activated)) (annotations s))
     ++ [activated])
    s.

Definition updateAnnotation (annotation : Annotation) (s : State) : State :=
  setAnnotations
    (filter (other_id (id annotation)) (annotations s) ++ [annotation]) s.

Definition deleteAnnotation (annotation : Annotation) (s : State) : State :=
  setAnnotations (filter (other_id (id annotation)) (annotations s)) s.

(** The local [maxId] of [saveAnnotation]: the first of the parsed ids
    sorted in descending order.  The inner [None] is a falsy [undefined]
    (no annotation) or NaN (a single id without digits); the outer [None]
    stands for a list of several ids one of which is NaN, on which the
    comparator [(a, b) => b - a] is inconsistent and the order that [sort]
    leaves is not determined by the language. *)
Definition maxId (ids : list (option Z)) : option (option Z) :=
  match ids with
  | [] => Some None
  | [i] => Some i
  | _ =>
      if forallb (fun i => match i with Some _ => true | None => false end)
                 ids
      then Some (Some (fold_right
                         (fun i m => match i with
                                     | Some n => Z.max n m
                                     | None => m
                                     end)
                         (match hd None ids with Some n => n | None => 0%Z end)
                         ids))
      else None
  end.

Definition saveAnnotation (annotation : Annotation) (s : State)
  : option State :=
  match maxId (map (fun ann => parseInt (id ann)) (annotations s)) with
  | None => None
  | Some maxId =>
      let newId :=
        match maxId with
        | Some m => if (m =? 0)%Z then "1"%string else toString (m + 1)
        | None => "1"%string
        end in
      let newAnnotation := assign_id newId annotation in
      let s1 :=
        match annotations s with
        | [] => setToastMsg
                  (Some {| msg := "Select a tag to annotate the box.";
                           lvl := "primary" |}) s
        | _ :: _ => s
        end in
      Some (activateAnnotation newAnnotation s1)
  end.

Definition toggleTag (tag : string) (s : State) : State :=
  match find active (annotations s) with
  | Some activeAnn =>
      let newTag :=
        if (annotation activeAnn =? tag)%string then ""%string else tag in
      let newAnnotation := assign_annotation newTag activeAnn in
      setToastMsg None
        (setAnnotations
           (filter (fun ann => negb (active ann)) (annotations s)
            ++ [newAnnotation])
           s)
  | None => s
  end.

(** [anns.sort((a, b) => a.startTime - b.startTime)]: ascending start
    times, annotations with equal start times in their former order. *)
Fixpoint insertByStart (a : Annotation) (anns : list Annotation)
  : list Annotation :=
  match anns with
  | [] => [a]
  | x :: anns' =>
      if Js.leb (startTime a) (startTime x) then a :: anns
      else x :: insertByStart a anns'
  end.

Definition sortByStart (anns : list Annotation) : list Annotation :=
  fold_right insertByStart [] anns.

Definition clean (ann : Annotation) : CleanAnnotation :=
  {| clean_id := id ann;
     clean_start := startTime ann;
     clean_end := endTime ann;
     clean_annotation := annotation ann;
     clean_startFrequency := startFrequency ann;
     clean_endFrequency := endFrequency ann |}.

(** [submitAnnotations], up to the request: the array of the state is
    sorted in place, and the body is posted with the two times in seconds;
    [now] is the time of the call in milliseconds. *)
Definition submitAnnotations (now : Z) (s : State) : State * list Effect :=
  let sorted := sortByStart (annotations s) in
  (setAnnotations sorted s,
   [postUpdateResults (map clean sorted)
                      (taskStartTime s / 1000)%Z (now / 1000)%Z]).

Definition checkAnnotations (now : Z) (s : State) : State * list Effect :=
  let emptyAnnotations :=
    filter (fun ann => (String.length (annotation ann) =? 0)%nat)
           (annotations s) in
  match emptyAnnotations with
  | first :: _ =>
      (setToastMsg
         (Some {| msg := "Make sure all your annotations are tagged.";
                  lvl := "danger" |})
         (activateAnnotation first s),
       [])
  | [] => submitAnnotations now s
  end.

(** [render], as far as the state goes: it sorts the array in place. *)
Definition render (s : State) : State :=
  setAnnotations (sortByStart (annotations s)) s.

Definition pause (s : State) : State * list Effect :=
  (setPlaying false None s, [audioPause]).

Definition play (annotation : option Annotation) (s : State)
  : State * list Effect :=
  let (s1, effects) :=
    match annotation with
    | Some a => (activateAnnotation a s, [audioSetCurrentTime (startTime a)])
    | None => (s, [])
    end in
  (setPlaying true (option_map endTime annotation) s1,
   effects ++ [audioPlay]).

(** [this.state.stopTime && ...]: [undefined] and [0] are falsy. *)
Definition truthy (t : option Q) : bool :=
  match t with
  | Some x => negb (Qeq_bool x 0)
  | None => false
  end.

Definition updateProgress (seconds : Q) (s : State) : State * list Effect :=
  if truthy (stopTime s)
     && match stopTime s with
        | Some stop => Js.ltb stop seconds
        | None => false
        end
  then pause s
  else (setCurrentTime seconds s, []).

Definition seekTo (newTime : Q) (s : State) : State * list Effect :=
  let (s', effects) := updateProgress newTime s in
  (s', audioSetCurrentTime newTime :: effects).

(** [playPause]; [paused] is what the audio element says. *)
Definition playPause (paused : bool) (s : State) : State * list Effect :=
  if paused then play None s else pause s.



(** The operations on the store. *)
Inductive Op :=
| Save (a : Annotation)
| Activate (a : Annotation)
| Update (a : Annotation)
| Delete (a : Annotation)
| ToggleTag (tag : string)
| Play (a : option Annotation)
| Pause
| Progress (seconds : Q)
| Seek (t : Q)
| Check (now : Z)
| Render.

Definition apply (op : Op) (s : State) : option (State * list Effect) :=
  match op with
  | Save a => option_map (fun s' => (s', [])) (saveAnnotation a s)
  | Activate a => Some (activateAnnotation a s, [])
  | Update a => Some (updateAnnotation a s, [])
  | Delete a => Some (deleteAnnotation a s, [])
  | ToggleTag tag => Some (toggleTag tag s, [])
  | Play a => Some (play a s)
  | Pause => Some (pause s)
  | Progress seconds => Some (updateProgress seconds s)
  | Seek t => Some (seekTo t s)
  | Check now => Some (checkAnnotations now s)
  | Render => Some (render s, [])
  end.

(** Ids are unique and at most one annotation is active. *)
Definition store_ok (s : State) : Prop :=
  NoDup (map id (annotations s)) /\
  (length (filter active (annotations s)) <= 1)%nat.

End Annotator.


(** Sample stores. *)
Module SampleStore.

(** An annotation as the Workbench hands it over. *)
Definition drawn (t0 t1 : Q) : Annotation :=
  {| id := ""; annotation := ""; startTime := t0; endTime := t1;
     startFrequency := 200; endFrequency := 500; active := false |}.

(** The store after the annotations of [drawings] were saved in turn. *)
Fixpoint saved (drawings : list Annotation) (s : Annotator.State)
  : Annotator.State :=
  match drawings with
  | [] => s
  | a :: drawings' =>
      match Annotator.saveAnnotation a s with
      | Some s' => saved drawings' s'
      | None => s
      end
  end.

Definition two : Annotator.State :=
  saved [drawn 40 50; drawn 4 10] (Annotator.initial 1000).

End SampleStore.




(** [formatTimestamp] of the parent and the string methods it uses. *)
Module Format.






End Format.

(* ------------------------------------------------------------------ *)
(** * Proofs *)

(** ** Comparison of numbers *)

Lemma ltb_lt (a b : Q) : Js.ltb a b = true <-> a < b.
Proof.
  unfold Js.ltb. rewrite Qlt_alt.
  destruct (a ?= b); split; congruence.
Qed.

Lemma ltb_ge (a b : Q) : Js.ltb a b = false <-> b <= a.
Proof.
  split.
  - intros H. apply Qnot_lt_le. intros Hlt. apply ltb_lt in Hlt. congruence.
  - intros H. destruct (Js.ltb a b) eqn:E; [ | reflexivity ].
    apply ltb_lt in E. lra.
Qed.

Lemma leb_le (a b : Q) : Js.leb a b = true <-> a <= b.
Proof.
  unfold Js.leb. rewrite Qle_alt.
  destruct (a ?= b); split; congruence.
Qed.

Lemma leb_gt (a b : Q) : Js.leb a b = false <-> b < a.
Proof.
  split.
  - intros H. apply Qnot_le_lt. intros Hle. apply leb_le in Hle. congruence.
  - intros H. destruct (Js.leb a b) eqn:E; [ | reflexivity ].
    apply leb_le in E. lra.
Qed.

(** ** Coordinate transform *)

Lemma zero_div (r : Q) : 0 / r == 0.
Proof. unfold Qdiv. apply Qmult_0_l. Qed.

(** C4.  On a canvas whose bounding rectangle has its left edge at or
    before its right edge, and with a non-zero pixel-per-second ratio,
    [getTimeFromClientX] returns 0 left of the canvas, [canvas.width /
    timePxRatio] right of it, and [(clientX - left) / timePxRatio] between
    the two edges.  (The ratio is required to be non-zero because the
    source divides floating-point numbers, where [0 / 0] is not [0].) *)
Theorem getTimeFromClientX_clamps (bounds : ClientRect) (w : Workbench)
  (clientX : Q) :
  rect_left bounds <= rect_right bounds ->
  ~ timePxRatio (state w) == 0 ->
  (clientX < rect_left bounds ->
   getTimeFromClientX bounds w clientX == 0) /\
  (rect_right bounds < clientX ->
   getTimeFromClientX bounds w clientX
   = width (canvas w) / timePxRatio (state w)) /\
  (rect_left bounds <= clientX <= rect_right bounds ->
   getTimeFromClientX bounds w clientX
   = (clientX - rect_left bounds) / timePxRatio (state w)).
Proof.
  intros Hrect _. unfold getTimeFromClientX. repeat split.
  - intros Hl. apply ltb_lt in Hl. rewrite Hl. apply zero_div.
  - intros Hr.
    assert (Hl : Js.ltb clientX (rect_left bounds) = false)
      by (apply ltb_ge; lra).
    apply ltb_lt in Hr. now rewrite Hl, Hr.
  - intros [Hl Hr].
    apply ltb_ge in Hl. apply ltb_ge in Hr. now rewrite Hl, Hr.
Qed.

Lemma getTimeFromClientX_clamps_witness :
  getTimeFromClientX Sample.bounds (Sample.mounted 900 7) 10 == 0 /\
  getTimeFromClientX Sample.bounds (Sample.mounted 900 7) 2000 = 1813 / (1813 / 900) /\
  getTimeFromClientX Sample.bounds (Sample.mounted 900 7) 135
  = (135 - 35) / (1813 / 900).
Proof.
  destruct (getTimeFromClientX_clamps Sample.bounds (Sample.mounted 900 7) 10)
    as (H1 & _); [ vm_compute; discriminate | vm_compute; discriminate | ].
  destruct (getTimeFromClientX_clamps Sample.bounds (Sample.mounted 900 7) 2000)
    as (_ & H2 & _); [ vm_compute; discriminate | vm_compute; discriminate | ].
  destruct (getTimeFromClientX_clamps Sample.bounds (Sample.mounted 900 7) 135)
    as (_ & _ & H3); [ vm_compute; discriminate | vm_compute; discriminate | ].
  split; [ apply H1; reflexivity | ].
  split; [ apply H2; reflexivity | ].
  apply H3. split; vm_compute; discriminate.
Defined.

(** C5.  On a canvas whose bounding rectangle is as high as the canvas
    ([bottom - top] equals [canvas.height], not negative), and with a
    non-zero pixel-per-hertz ratio, [getFrequencyFromClientY] returns
    [startFrequency + canvas.height / freqPxRatio] at or above the top edge,
    [startFrequency] at or below the bottom edge, and
    [startFrequency + (bottom - clientY) / freqPxRatio] in between; the
    result grows as the pointer goes up. *)
Theorem getFrequencyFromClientY_clamps (bounds : ClientRect) (w : Workbench)
  (clientY : Q) :
  rect_bottom bounds - rect_top bounds == height (canvas w) ->
  0 <= height (canvas w) ->
  0 < freqPxRatio (state w) ->
  (clientY <= rect_top bounds ->
   getFrequencyFromClientY bounds w clientY
   == props_startFrequency (props w)
      + height (canvas w) / freqPxRatio (state w)) /\
  (rect_bottom bounds <= clientY ->
   getFrequencyFromClientY bounds w clientY == props_startFrequency (props w)) /\
  (rect_top bounds <= clientY <= rect_bottom bounds ->
   getFrequencyFromClientY bounds w clientY
   = props_startFrequency (props w)
     + (rect_bottom bounds - clientY) / freqPxRatio (state w)) /\
  (forall above : Q, clientY <= above ->
   getFrequencyFromClientY bounds w above
   <= getFrequencyFromClientY bounds w clientY).
Proof.
  intros Hh Hpos Hr.
  assert (Hoff : forall y,
    exists offset,
      getFrequencyFromClientY bounds w y
      = props_startFrequency (props w) + offset / freqPxRatio (state w) /\
      ((y < rect_top bounds /\ offset = height (canvas w)) \/
       (rect_bottom bounds < y /\ rect_top bounds <= y /\ offset = 0) \/
       (rect_top bounds <= y <= rect_bottom bounds /\
        offset = rect_bottom bounds - y))).
  { intros y. unfold getFrequencyFromClientY.
    destruct (Js.ltb y (rect_top bounds)) eqn:Et.
    - apply ltb_lt in Et. eexists. split; [ reflexivity | ]. left. now split.
    - apply ltb_ge in Et.
      destruct (Js.ltb (rect_bottom bounds) y) eqn:Eb.
      + apply ltb_lt in Eb. eexists. split; [ reflexivity | ].
        right. left. now repeat split.
      + apply ltb_ge in Eb. eexists. split; [ reflexivity | ].
        right. right. now repeat split. }
  repeat split.
  - intros Hy. destruct (Hoff clientY) as (o & -> & [(_ & ->) | [(? & ? & _) | (? & ->)]]).
    + reflexivity.
    + lra.
    + assert (E : rect_bottom bounds - clientY == height (canvas w)) by lra.
      now rewrite E.
  - intros Hy. destruct (Hoff clientY) as (o & -> & [(? & _) | [(_ & _ & ->) | (? & ->)]]).
    + lra.
    + rewrite zero_div. lra.
    + assert (E : rect_bottom bounds - clientY == 0) by lra.
      rewrite E, zero_div. lra.
  - intros [Ht Hb]. unfold getFrequencyFromClientY.
    apply ltb_ge in Ht. apply ltb_ge in Hb. now rewrite Ht, Hb.
  - intros above Hle.
    destruct (Hoff clientY) as (o1 & -> & H1).
    destruct (Hoff above) as (o2 & -> & H2).
    apply Qplus_le_r. unfold Qdiv. apply Qmult_le_compat_r.
    + destruct H1 as [(? & ->) | [(? & ? & ->) | (? & ->)]];
        destruct H2 as [(? & ->) | [(? & ? & ->) | (? & ->)]]; lra.
    + apply Qlt_le_weak, Qinv_lt_0_compat, Hr.
Qed.

Lemma getFrequencyFromClientY_clamps_witness :
  getFrequencyFromClientY Sample.bounds (Sample.mounted 900 7) 80
  == 0 + 512 / (512 / 64000) /\
  getFrequencyFromClientY Sample.bounds (Sample.mounted 900 7) 592 == 0 /\
  getFrequencyFromClientY Sample.bounds (Sample.mounted 900 7) 336
  = 0 + (592 - 336) / (512 / 64000) /\
  getFrequencyFromClientY Sample.bounds (Sample.mounted 900 7) 400
  <= getFrequencyFromClientY Sample.bounds (Sample.mounted 900 7) 336.
Proof.
  destruct (getFrequencyFromClientY_clamps Sample.bounds
              (Sample.mounted 900 7) 80) as (H1 & _);
    [ reflexivity | vm_compute; discriminate | reflexivity | ].
  destruct (getFrequencyFromClientY_clamps Sample.bounds
              (Sample.mounted 900 7) 592) as (_ & H2 & _);
    [ reflexivity | vm_compute; discriminate | reflexivity | ].
  destruct (getFrequencyFromClientY_clamps Sample.bounds
              (Sample.mounted 900 7) 336) as (_ & _ & H3 & H4);
    [ reflexivity | vm_compute; discriminate | reflexivity | ].
  split; [ apply H1; vm_compute; discriminate | ].
  split; [ apply H2; vm_compute; discriminate | ].
  split; [ apply H3; split; vm_compute; discriminate | ].
  apply H4. vm_compute; discriminate.
Defined.

(** ** Time axis *)

(** C9.  The tick steps of the time axis depend on the state only through
    the duration on screen [wrapperWidth / timePxRatio]: up to 60s they are
    [(1, 5)], above 60s and up to 120s [(2, 5)], above 120s and up to 240s
    [(4, 5)], above 240s [(10, 6)]; so 45s, 90s, 200s and 300s select
    [(1, 5)], [(2, 5)], [(4, 5)] and [(10, 6)]. *)
Theorem timeAxisSteps_thresholds (w : Workbench) (visible : Q) :
  wrapperWidth (state w) / timePxRatio (state w) == visible ->
  (visible <= 60 -> timeAxisSteps w = (1, 5)%Z) /\
  (60 < visible <= 120 -> timeAxisSteps w = (2, 5)%Z) /\
  (120 < visible <= 240 -> timeAxisSteps w = (4, 5)%Z) /\
  (240 < visible -> timeAxisSteps w = (10, 6)%Z) /\
  (visible == 45 -> timeAxisSteps w = (1, 5)%Z) /\
  (visible == 90 -> timeAxisSteps w = (2, 5)%Z) /\
  (visible == 200 -> timeAxisSteps w = (4, 5)%Z) /\
  (visible == 300 -> timeAxisSteps w = (10, 6)%Z).
Proof.
  intros Hv.
  assert (H1 : visible <= 60 -> timeAxisSteps w = (1, 5)%Z).
  { intros H. unfold timeAxisSteps.
    assert (E : Js.leb (wrapperWidth (state w) / timePxRatio (state w)) 60
                = true) by (apply leb_le; lra).
    now rewrite E. }
  assert (H2 : 60 < visible <= 120 -> timeAxisSteps w = (2, 5)%Z).
  { intros [Ha Hb]. unfold timeAxisSteps.
    assert (E1 : Js.leb (wrapperWidth (state w) / timePxRatio (state w)) 60
                 = false) by (apply leb_gt; lra).
    assert (E2 : Js.ltb 60 (wrapperWidth (state w) / timePxRatio (state w))
                 = true) by (apply ltb_lt; lra).
    assert (E3 : Js.leb (wrapperWidth (state w) / timePxRatio (state w)) 120
                 = true) by (apply leb_le; lra).
    now rewrite E1, E2, E3. }
  assert (H3 : 120 < visible <= 240 -> timeAxisSteps w = (4, 5)%Z).
  { intros [Ha Hb]. unfold timeAxisSteps.
    assert (E1 : Js.leb (wrapperWidth (state w) / timePxRatio (state w)) 60
                 = false) by (apply leb_gt; lra).
    assert (E2 : Js.leb (wrapperWidth (state w) / timePxRatio (state w)) 120
                 = false) by (apply leb_gt; lra).
    assert (E3 : Js.ltb 120 (wrapperWidth (state w) / timePxRatio (state w))
                 = true) by (apply ltb_lt; lra).
    assert (E4 : Js.leb (wrapperWidth (state w) / timePxRatio (state w)) 240
                 = true) by (apply leb_le; lra).
    now rewrite E1, E2, E3, E4, andb_false_r. }
  assert (H4 : 240 < visible -> timeAxisSteps w = (10, 6)%Z).
  { intros Ha. unfold timeAxisSteps.
    assert (E1 : Js.leb (wrapperWidth (state w) / timePxRatio (state w)) 60
                 = false) by (apply leb_gt; lra).
    assert (E2 : Js.leb (wrapperWidth (state w) / timePxRatio (state w)) 120
                 = false) by (apply leb_gt; lra).
    assert (E3 : Js.leb (wrapperWidth (state w) / timePxRatio (state w)) 240
                 = false) by (apply leb_gt; lra).
    now rewrite E1, E2, E3, !andb_false_r. }
  repeat split; try assumption; intros E.
  - apply H1. lra.
  - apply H2. lra.
  - apply H3. lra.
  - apply H4. lra.
Qed.

Lemma timeAxisSteps_thresholds_witness :
  timeAxisSteps (Sample.mounted 45 7) = (1, 5)%Z /\
  timeAxisSteps (Sample.mounted 90 7) = (2, 5)%Z /\
  timeAxisSteps (Sample.mounted 200 7) = (4, 5)%Z /\
  timeAxisSteps (Sample.mounted 300 7) = (10, 6)%Z.
Proof.
  destruct (timeAxisSteps_thresholds (Sample.mounted 45 7) 45)
    as (_ & _ & _ & _ & H45 & _); [ reflexivity | ].
  destruct (timeAxisSteps_thresholds (Sample.mounted 90 7) 90)
    as (_ & _ & _ & _ & _ & H90 & _); [ reflexivity | ].
  destruct (timeAxisSteps_thresholds (Sample.mounted 200 7) 200)
    as (_ & _ & _ & _ & _ & _ & H200 & _); [ reflexivity | ].
  destruct (timeAxisSteps_thresholds (Sample.mounted 300 7) 300)
    as (_ & _ & _ & _ & _ & _ & _ & H300); [ reflexivity | ].
  split; [ apply H45; reflexivity | ].
  split; [ apply H90; reflexivity | ].
  split; [ apply H200; reflexivity | apply H300; reflexivity ].
Defined.

(** ** Arrays *)

Lemma get_of_nat {A} (xs : list A) (j : nat) :
  Js.get xs (Z.of_nat j) = nth_error xs j.
Proof.
  unfold Js.get.
  destruct (Z.ltb_spec (Z.of_nat j) 0); [ lia | now rewrite Nat2Z.id ].
Qed.

Lemma get_some {A} (xs : list A) (i : Z) (x : A) :
  Js.get xs i = Some x ->
  (0 <= i)%Z /\ nth_error xs (Z.to_nat i) = Some x.
Proof.
  unfold Js.get. destruct (Z.ltb_spec i 0); [ discriminate | auto ].
Qed.

Lemma findIndex_lower {A} (p : A -> bool) (xs : list A) :
  (-1 <= Js.findIndex p xs)%Z.
Proof.
  induction xs as [ | x xs IH ]; simpl; [ lia | ].
  destruct (p x); [ lia | ].
  destruct (Z.ltb_spec (Js.findIndex p xs) 0); lia.
Qed.

(** In a list without duplicates, looking up an element by value gives
    back its position. *)
Lemma findIndex_nth (xs : list Z) :
  NoDup xs ->
  forall (j : nat) (x : Z),
    nth_error xs j = Some x ->
    Js.findIndex (fun factor => (factor =? x)%Z) xs = Z.of_nat j.
Proof.
  induction 1 as [ | h t Hnotin Hnodup IH ]; intros j x Hj.
  - destruct j; discriminate.
  - destruct j as [ | j ]; simpl in *.
    + injection Hj as ->. now rewrite Z.eqb_refl.
    + assert (Hne : (h =? x)%Z = false).
      { apply Z.eqb_neq. intros ->. apply Hnotin.
        eapply nth_error_In; eassumption. }
      rewrite Hne, (IH j x Hj).
      destruct (Z.ltb_spec (Z.of_nat j) 0); lia.
Qed.

(** ** Sorting *)

Lemma insert_In (a x : Z) (xs : list Z) :
  In x (Js.insert a xs) <-> x = a \/ In x xs.
Proof.
  induction xs as [ | y ys IH ]; simpl.
  - intuition.
  - destruct (a <=? y)%Z; simpl; rewrite ?IH; intuition.
Qed.

Lemma insert_sorted (a : Z) (xs : list Z) :
  StronglySorted Z.le xs -> StronglySorted Z.le (Js.insert a xs).
Proof.
  induction 1 as [ | y ys Hs IH Hall ]; simpl.
  - repeat constructor.
  - destruct (Z.leb_spec a y).
    + constructor; [ now constructor | ].
      constructor; [ assumption | ].
      eapply Forall_impl; [ | exact Hall ]. intros; simpl in *; lia.
    + constructor; [ assumption | ].
      apply Forall_forall. intros x Hx. apply insert_In in Hx.
      destruct Hx as [ -> | Hx ]; [ lia | ].
      rewrite Forall_forall in Hall. auto.
Qed.

Lemma sort_sorted (xs : list Z) : StronglySorted Z.le (Js.sort xs).
Proof.
  induction xs; simpl; [ constructor | now apply insert_sorted ].
Qed.

Lemma sorted_nth (xs : list Z) :
  StronglySorted Z.le xs ->
  forall (i j : nat) (a b : Z), (i < j)%nat ->
    nth_error xs i = Some a -> nth_error xs j = Some b -> (a <= b)%Z.
Proof.
  induction 1 as [ | y ys Hs IH Hall ]; intros i j a b Hij Hi Hj.
  - destruct i; discriminate.
  - destruct j as [ | j ]; [ lia | ]. simpl in Hj.
    destruct i as [ | i ]; simpl in Hi.
    + injection Hi as ->. rewrite Forall_forall in Hall.
      apply Hall. eapply nth_error_In; eassumption.
    + eapply IH; [ | eassumption | eassumption ]. lia.
Qed.

(** Sorted and without duplicates: strictly ascending. *)
Lemma sort_ascending (xs : list Z) :
  NoDup (Js.sort xs) -> ascending (Js.sort xs).
Proof.
  intros Hnd i j a b Hij Hi Hj.
  apply get_some in Hi. destruct Hi as [Hi0 Hi].
  apply get_some in Hj. destruct Hj as [Hj0 Hj].
  assert (Hlt : (Z.to_nat i < Z.to_nat j)%nat) by lia.
  assert (Hle : (a <= b)%Z)
    by (eapply sorted_nth; [ apply sort_sorted | eassumption .. ]).
  assert (Hne : a <> b).
  { intros ->.
    assert (E : Z.to_nat i = Z.to_nat j).
    { eapply (proj1 (NoDup_nth_error (Js.sort xs))); [ exact Hnd | | congruence ].
      apply nth_error_Some. congruence. }
    lia. }
  lia.
Qed.

(** ** Zoom controller *)

(** [zoom] returns as soon as the new factor is defined, and the result is
    the resized instance. *)
Lemma zoom_some (direction : Z) (w : Workbench) (z : Z) :
  newZoom direction w = Some z ->
  zoom direction w
  = Some (setState
            (with_zoom z (wrapperWidth (state w) * inject_Z z
                          / duration (props w))
                       (state w))
            (set_widths (wrapperWidth (state w) * inject_Z z) w)).
Proof. unfold zoom. now intros ->. Qed.

Lemma zoom_inv (direction : Z) (w w' : Workbench) :
  zoom direction w = Some w' ->
  newZoom direction w = Some (currentZoom (state w')) /\
  zoomLevels w' = zoomLevels w /\
  wrapperWidth (state w') = wrapperWidth (state w) /\
  props w' = props w.
Proof.
  unfold zoom. destruct (newZoom direction w) as [ z | ]; [ | discriminate ].
  intros [= <-]. repeat split.
Qed.

Lemma oldZoomIdx_nth (w : Workbench) (j : nat) :
  NoDup (zoomLevels w) ->
  nth_error (zoomLevels w) j = Some (currentZoom (state w)) ->
  oldZoomIdx w = Z.of_nat j.
Proof. intros Hnd Hj. unfold oldZoomIdx. now apply findIndex_nth. Qed.

Lemma newZoom_in_below_cap (w : Workbench) (j : nat) :
  NoDup (zoomLevels w) ->
  nth_error (zoomLevels w) j = Some (currentZoom (state w)) ->
  (j < 4)%nat ->
  newZoom 1 w = nth_error (zoomLevels w) (S j).
Proof.
  intros Hnd Hj Hlt. unfold newZoom. rewrite (oldZoomIdx_nth _ _ Hnd Hj).
  destruct (Z.ltb_spec (Z.of_nat j) 4); [ | lia ].
  change ((1 >? 0)%Z && true) with true. cbv iota.
  replace (Z.of_nat j + 1)%Z with (Z.of_nat (S j)) by lia.
  apply get_of_nat.
Qed.

Lemma newZoom_in_at_cap (w : Workbench) (j : nat) :
  NoDup (zoomLevels w) ->
  nth_error (zoomLevels w) j = Some (currentZoom (state w)) ->
  (4 <= j)%nat ->
  newZoom 1 w = Some (currentZoom (state w)).
Proof.
  intros Hnd Hj Hge. unfold newZoom. rewrite (oldZoomIdx_nth _ _ Hnd Hj).
  destruct (Z.ltb_spec (Z.of_nat j) 4); [ lia | ]. reflexivity.
Qed.

Lemma newZoom_out_at_floor (w : Workbench) :
  NoDup (zoomLevels w) ->
  nth_error (zoomLevels w) 0 = Some (currentZoom (state w)) ->
  newZoom (-1) w = Some (currentZoom (state w)).
Proof.
  intros Hnd H0. unfold newZoom. rewrite (oldZoomIdx_nth _ _ Hnd H0).
  reflexivity.
Qed.

Lemma newZoom_congr (direction : Z) (w w' : Workbench) :
  zoomLevels w' = zoomLevels w ->
  currentZoom (state w') = currentZoom (state w) ->
  newZoom direction w' = newZoom direction w.
Proof.
  intros Hlv Hcz. unfold newZoom, oldZoomIdx. now rewrite Hlv, Hcz.
Qed.

(** A request that keeps the factor gives an instance on which the same
    request changes nothing at all. *)
Lemma zoom_noop_idempotent (direction : Z) (w w' : Workbench) :
  newZoom direction w = Some (currentZoom (state w)) ->
  zoom direction w = Some w' ->
  currentZoom (state w') = currentZoom (state w) /\
  zoom direction w' = Some w'.
Proof.
  intros Hn Hz.
  destruct (zoom_inv _ _ _ Hz) as (Hn' & Hlv & _).
  assert (Hcz : currentZoom (state w') = currentZoom (state w))
    by congruence.
  split; [ exact Hcz | ].
  assert (Hn2 : newZoom direction w' = Some (currentZoom (state w')))
    by (rewrite (newZoom_congr direction w w' Hlv Hcz); congruence).
  rewrite (zoom_some _ _ _ Hn2).
  rewrite (zoom_some _ _ _ Hn) in Hz. injection Hz as <-. reflexivity.
Qed.

Lemma zoom_times_succ (n : nat) (direction : Z) (w : Workbench) :
  zoom_times (S n) direction w
  = match zoom_times n direction w with
    | Some w' => zoom direction w'
    | None => None
    end.
Proof.
  revert w. induction n as [ | n IH ]; intros w.
  - simpl. now destruct (zoom direction w).
  - change (zoom_times (S (S n)) direction w)
      with (match zoom direction w with
            | Some w' => zoom_times (S n) direction w'
            | None => None
            end).
    destruct (zoom direction w) as [ w1 | ] eqn:E.
    + rewrite IH. simpl. now rewrite E.
    + simpl. now rewrite E.
Qed.

(** After [j] zoom-in requests from the lowest of at least five distinct
    levels, the factor is the one at index [min j 4]. *)
Lemma zoom_times_in (w : Workbench) :
  NoDup (zoomLevels w) ->
  (5 <= length (zoomLevels w))%nat ->
  nth_error (zoomLevels w) 0 = Some (currentZoom (state w)) ->
  forall j, exists wj,
    zoom_times j 1 w = Some wj /\
    zoomLevels wj = zoomLevels w /\
    nth_error (zoomLevels w) (Nat.min j 4) = Some (currentZoom (state wj)).
Proof.
  intros Hnd Hlen H0 j. induction j as [ | j (wj & Hrun & Hlv & Hidx) ].
  - exists w. repeat split. exact H0.
  - rewrite zoom_times_succ, Hrun.
    rewrite <- Hlv in Hnd, Hidx.
    destruct (Nat.lt_ge_cases j 4) as [ Hlt | Hge ].
    + rewrite Nat.min_l in Hidx by lia.
      destruct (nth_error (zoomLevels wj) (S j)) as [ z | ] eqn:Ez.
      * assert (Hn : newZoom 1 wj = Some z)
          by (now rewrite (newZoom_in_below_cap _ _ Hnd Hidx Hlt)).
        eexists. split; [ apply zoom_some, Hn | ].
        split; [ exact Hlv | ].
        rewrite Nat.min_l by lia. now rewrite <- Hlv, Ez.
      * apply nth_error_None in Ez. rewrite Hlv in Ez. lia.
    + rewrite Nat.min_r in Hidx by lia.
      assert (Hn : newZoom 1 wj = Some (currentZoom (state wj)))
        by (apply (newZoom_in_at_cap _ _ Hnd Hidx); lia).
      eexists. split; [ apply zoom_some, Hn | ].
      split; [ exact Hlv | ].
      rewrite Nat.min_r by lia. now rewrite <- Hlv.
Qed.

(** C8.  Whenever the new zoom factor is defined, [zoom] returns; it sets
    the width of the canvas and of the time axis to [wrapperWidth *
    newZoom] and [timePxRatio] to [wrapperWidth * newZoom / duration], and
    leaves [freqPxRatio], the canvas height and [wrapperWidth] as they
    were. *)
Theorem zoom_resizes (direction : Z) (w : Workbench) (z : Z) :
  newZoom direction w = Some z ->
  exists w',
    zoom direction w = Some w' /\
    currentZoom (state w') = z /\
    width (canvas w') = wrapperWidth (state w) * inject_Z z /\
    width (timeAxis w') = wrapperWidth (state w) * inject_Z z /\
    timePxRatio (state w')
    = wrapperWidth (state w) * inject_Z z / duration (props w) /\
    freqPxRatio (state w') = freqPxRatio (state w) /\
    height (canvas w') = height (canvas w) /\
    wrapperHeight (state w') = wrapperHeight (state w) /\
    wrapperWidth (state w') = wrapperWidth (state w).
Proof.
  intros Hn. eexists. split; [ apply zoom_some, Hn | ]. repeat split.
Qed.

Lemma zoom_resizes_witness :
  exists w',
    zoom 1 (Sample.mounted 900 7) = Some w' /\
    currentZoom (state w') = 2%Z /\
    width (canvas w') = 1813 * inject_Z 2 /\
    width (timeAxis w') = 1813 * inject_Z 2 /\
    timePxRatio (state w') = 1813 * inject_Z 2 / 900 /\
    freqPxRatio (state w') = 512 / 64000 /\
    height (canvas w') = 512 /\
    wrapperHeight (state w') = 512 + 30 + 20 /\
    wrapperWidth (state w') = 1813.
Proof.
  exact (zoom_resizes 1 (Sample.mounted 900 7) 2 eq_refl).
Defined.

(** C7, as amended.  With at least six distinct zoom levels and the current
    factor the lowest one: the levels are in strictly ascending order; each
    of the first four zoom-in requests moves to the next level, so that
    [j <= 4] requests reach index [j]; from the fourth request on the
    factor stays at index 4, a further zoom-in request returns, keeps the
    factor and is idempotent; and a zoom-out request at index 0 returns,
    keeps the factor and is idempotent. *)
Theorem zoom_in_capped_at_index_4 (w : Workbench) :
  NoDup (zoomLevels w) ->
  (6 <= length (zoomLevels w))%nat ->
  Js.get (zoomLevels w) 0 = Some (currentZoom (state w)) ->
  ascending (zoomLevels w) /\
  (forall j, (j <= 4)%nat ->
     exists wj, zoom_times j 1 w = Some wj /\
       Js.get (zoomLevels w) (Z.of_nat j) = Some (currentZoom (state wj))) /\
  (forall j, (4 <= j)%nat ->
     exists wj wj',
       zoom_times j 1 w = Some wj /\
       Js.get (zoomLevels w) 4 = Some (currentZoom (state wj)) /\
       zoom 1 wj = Some wj' /\
       currentZoom (state wj') = currentZoom (state wj) /\
       zoom 1 wj' = Some wj') /\
  (exists w',
     zoom (-1) w = Some w' /\
     currentZoom (state w') = currentZoom (state w) /\
     zoom (-1) w' = Some w').
Proof.
  intros Hnd Hlen H0.
  change 0%Z with (Z.of_nat 0) in H0. rewrite get_of_nat in H0.
  assert (Hlen5 : (5 <= length (zoomLevels w))%nat) by lia.
  split; [ apply sort_ascending, Hnd | ].
  split; [ | split ].
  - intros j Hj.
    destruct (zoom_times_in w Hnd Hlen5 H0 j) as (wj & Hrun & _ & Hidx).
    exists wj. split; [ exact Hrun | ].
    rewrite get_of_nat. now rewrite Nat.min_l in Hidx by lia.
  - intros j Hj.
    destruct (zoom_times_in w Hnd Hlen5 H0 j) as (wj & Hrun & Hlv & Hidx).
    rewrite Nat.min_r in Hidx by lia.
    assert (Hn : newZoom 1 wj = Some (currentZoom (state wj))).
    { apply (newZoom_in_at_cap wj 4); rewrite ?Hlv; auto. }
    pose proof (zoom_some _ _ _ Hn) as Hz.
    destruct (zoom_noop_idempotent _ _ _ Hn Hz) as (Hcz & Hidem).
    eexists wj, _. split; [ exact Hrun | ].
    split; [ exact Hidx | ].
    split; [ exact Hz | ]. split; assumption.
  - pose proof (newZoom_out_at_floor w Hnd H0) as Hn.
    pose proof (zoom_some _ _ _ Hn) as Hz.
    destruct (zoom_noop_idempotent _ _ _ Hn Hz) as (Hcz & Hidem).
    eexists. split; [ exact Hz | ]. split; assumption.
Qed.

Lemma zoom_in_capped_at_index_4_witness :
  (exists w4, zoom_times 4 1 (Sample.mounted 900 63) = Some w4 /\
     Js.get (zoomLevels (Sample.mounted 900 63)) 4
     = Some (currentZoom (state w4))) /\
  (exists w5 w6, zoom_times 5 1 (Sample.mounted 900 63) = Some w5 /\
     Js.get (zoomLevels (Sample.mounted 900 63)) 4
     = Some (currentZoom (state w5)) /\
     zoom 1 w5 = Some w6 /\
     currentZoom (state w6) = currentZoom (state w5) /\
     zoom 1 w6 = Some w6).
Proof.
  assert (Hnd : NoDup (zoomLevels (Sample.mounted 900 63))).
  { change (zoomLevels (Sample.mounted 900 63))
      with [1; 2; 4; 8; 16; 32]%Z.
    repeat (constructor; [ simpl; intuition discriminate | ]).
    constructor. }
  destruct (zoom_in_capped_at_index_4 (Sample.mounted 900 63) Hnd)
    as (_ & Hup & Hcap & _);
    [ vm_compute; lia | reflexivity | ].
  split; [ apply (Hup 4%nat); lia | apply (Hcap 5%nat); lia ].
Defined.

(** The claim C7 as first stated fails: with the six levels 1, 2, 4, 8,
    16, 32, it is not the case that each of the first five zoom-in requests
    raises the factor (the fifth one finds index 4 and keeps 16). *)
Lemma fifth_zoom_in_keeps_factor :
  zoomLevels (Sample.mounted 900 63) = [1; 2; 4; 8; 16; 32]%Z /\
  ~ (forall j, (j < 5)%nat ->
       exists a b,
         zoom_times j 1 (Sample.mounted 900 63) = Some a /\
         zoom 1 a = Some b /\
         (currentZoom (state a) < currentZoom (state b))%Z).
Proof.
  split; [ reflexivity | ].
  intros H. destruct (H 4%nat) as (a & b & Ha & Hb & Hlt); [ lia | ].
  vm_compute in Ha. injection Ha as <-.
  vm_compute in Hb. injection Hb as <-.
  vm_compute in Hlt. discriminate.
Qed.

(** C2, as amended.  [onWheelZoom] looks at the sign of [deltaY] only: a
    negative delta makes the one request [zoom(1)] (zoom in), a positive
    delta the one request [zoom(-1)] (zoom out), a zero delta none; in each
    case [preventDefault] is called. *)
Theorem onWheelZoom_direction (event : WheelEvent) (w : Workbench) :
  (deltaY event < 0 ->
   onWheelZoom event w
   = option_map (fun w' => (w', [preventDefault])) (zoom 1 w)) /\
  (0 < deltaY event ->
   onWheelZoom event w
   = option_map (fun w' => (w', [preventDefault])) (zoom (-1) w)) /\
  (deltaY event == 0 -> onWheelZoom event w = Some (w, [preventDefault])).
Proof.
  unfold onWheelZoom. repeat split.
  - intros H. apply ltb_lt in H. now rewrite H.
  - intros H.
    assert (E : Js.ltb (deltaY event) 0 = false) by (apply ltb_ge; lra).
    apply ltb_lt in H. now rewrite E, H.
  - intros H.
    assert (E1 : Js.ltb (deltaY event) 0 = false) by (apply ltb_ge; lra).
    assert (E2 : Js.ltb 0 (deltaY event) = false) by (apply ltb_ge; lra).
    now rewrite E1, E2.
Qed.

Lemma onWheelZoom_direction_witness :
  Sample.factor_after
    (onWheelZoom (Sample.wheel (-53)) (Sample.zoomed 900 7)) = Some 4%Z /\
  Sample.factor_after
    (onWheelZoom (Sample.wheel 120) (Sample.zoomed 900 7)) = Some 1%Z /\
  Sample.factor_after
    (onWheelZoom (Sample.wheel 0) (Sample.zoomed 900 7)) = Some 2%Z.
Proof.
  destruct (onWheelZoom_direction (Sample.wheel (-53)) (Sample.zoomed 900 7))
    as (Hneg & _).
  destruct (onWheelZoom_direction (Sample.wheel 120) (Sample.zoomed 900 7))
    as (_ & Hpos & _).
  destruct (onWheelZoom_direction (Sample.wheel 0) (Sample.zoomed 900 7))
    as (_ & _ & Hzero).
  rewrite Hneg, Hpos, Hzero by reflexivity.
  repeat split.
Defined.

(** The claim C2 as first stated fails: at factor 2 of the levels 1, 2, 4,
    a wheel event with a negative delta does not do what [zoom(-1)] does
    (it raises the factor to 4), and one with a positive delta does not do
    what [zoom(1)] does (it lowers the factor to 1). *)
Lemma wheel_direction_reversed :
  currentZoom (state (Sample.zoomed 900 7)) = 2%Z /\
  Sample.factor_after (onWheelZoom (Sample.wheel (-1)) (Sample.zoomed 900 7))
  = Some 4%Z /\
  option_map (fun w => currentZoom (state w)) (zoom (-1) (Sample.zoomed 900 7))
  = Some 1%Z /\
  Sample.factor_after (onWheelZoom (Sample.wheel 1) (Sample.zoomed 900 7))
  = Some 1%Z /\
  option_map (fun w => currentZoom (state w)) (zoom 1 (Sample.zoomed 900 7))
  = Some 4%Z /\
  ~ (forall event w,
       (deltaY event < 0 ->
        onWheelZoom event w
        = option_map (fun w' => (w', [preventDefault])) (zoom (-1) w)) /\
       (0 < deltaY event ->
        onWheelZoom event w
        = option_map (fun w' => (w', [preventDefault])) (zoom 1 w))).
Proof.
  repeat split.
  intros H.
  destruct (H (Sample.wheel (-1)) (Sample.zoomed 900 7)) as (Hneg & _).
  assert (E : Sample.factor_after
                (onWheelZoom (Sample.wheel (-1)) (Sample.zoomed 900 7))
              = Sample.factor_after
                  (option_map (fun w' => (w', [preventDefault]))
                              (zoom (-1) (Sample.zoomed 900 7))))
    by (f_equal; apply Hneg; reflexivity).
  vm_compute in E. discriminate.
Qed.

(** ** Annotation draw state machine *)

Lemma run_app (evs1 evs2 : list Event) (w : Workbench) :
  run (evs1 ++ evs2) w
  = let (w1, calls1) := run evs1 w in
    let (w2, calls2) := run evs2 w1 in
    (w2, calls1 ++ calls2).
Proof.
  revert w. induction evs1 as [ | ev evs1 IH ]; intros w; simpl.
  - now destruct (run evs2 w).
  - destruct (dispatch ev w) as [w1 c1]. rewrite IH.
    destruct (run evs1 w1) as [w2 c2].
    destruct (run evs2 w2) as [w3 c3].
    now rewrite app_assoc.
Qed.

Lemma created_app (c1 c2 : list Call) :
  created (c1 ++ c2) = created c1 ++ created c2.
Proof. apply flat_map_app. Qed.

Lemma same_view_refl (w : Workbench) : same_view w w.
Proof. repeat split. Qed.

Lemma same_view_trans (w1 w2 w3 : Workbench) :
  same_view w1 w2 -> same_view w2 w3 -> same_view w1 w3.
Proof.
  intros (? & ? & ? & ?) (? & ? & ? & ?). repeat split; congruence.
Qed.

Lemma getTimeFromClientX_view (w w' : Workbench) (b : ClientRect) (x : Q) :
  same_view w w' -> getTimeFromClientX b w' x = getTimeFromClientX b w x.
Proof.
  intros (_ & Hc & Ht & _). unfold getTimeFromClientX. now rewrite Hc, Ht.
Qed.

Lemma getFrequencyFromClientY_view (w w' : Workbench) (b : ClientRect)
  (y : Q) :
  same_view w w' ->
  getFrequencyFromClientY b w' y = getFrequencyFromClientY b w y.
Proof.
  intros (Hp & Hc & _ & Hf). unfold getFrequencyFromClientY.
  now rewrite Hp, Hc, Hf.
Qed.

(** What pointer-down leaves. *)
Lemma onStartNewAnnotation_spec (b : ClientRect) (e : PointerEvent)
  (w : Workbench) :
  let w1 := fst (onStartNewAnnotation b e w) in
  snd (onStartNewAnnotation b e w) = [] /\
  isDrawing w1 = true /\ drawPxMove w1 = 0%nat /\
  drawStartTime w1 = getTimeFromClientX b w (clientX e) /\
  drawStartFrequency w1 = getFrequencyFromClientY b w (clientY e) /\
  newAnnotation (state w1)
  = Some (pointDraft (getTimeFromClientX b w (clientX e))
                     (getFrequencyFromClientY b w (clientY e))) /\
  same_view w w1.
Proof. repeat split. Qed.

(** Moves while drawing: the counter counts them, nothing is created, and
    neither the origin nor the view changes. *)
Lemma run_moves (moves : list (ClientRect * PointerEvent)) :
  forall w, isDrawing w = true ->
    let r := run (map (fun m => PointerMove (fst m) (snd m)) moves) w in
    isDrawing (fst r) = true /\
    drawPxMove (fst r) = (drawPxMove w + length moves)%nat /\
    created (snd r) = [] /\
    drawStartTime (fst r) = drawStartTime w /\
    drawStartFrequency (fst r) = drawStartFrequency w /\
    same_view w (fst r).
Proof.
  induction moves as [ | m moves IH ]; intros w Hd.
  - simpl. repeat split; [ exact Hd | lia ].
  - cbn [map run dispatch length]. unfold onUpdateNewAnnotation. rewrite Hd.
    match goal with
    | |- context [ if ?c then (?a, ?ca) else (?b, ?cb) ] =>
        assert (Hstep : exists w1 c1,
                  (if c then (a, ca) else (b, cb)) = (w1, c1) /\
                  isDrawing w1 = true /\
                  drawPxMove w1 = S (drawPxMove w) /\
                  created c1 = [] /\
                  drawStartTime w1 = drawStartTime w /\
                  drawStartFrequency w1 = drawStartFrequency w /\
                  same_view w w1)
          by (destruct c; eexists _, _; repeat split)
    end.
    destruct Hstep as (w1 & c1 & -> & Hd1 & Hn1 & Hc1 & Ht1 & Hf1 & Hv1).
    specialize (IH w1 Hd1). cbv zeta in IH.
    destruct (run (map (fun m => PointerMove (fst m) (snd m)) moves) w1)
      as [w2 c2].
    simpl in *. destruct IH as (? & ? & ? & ? & ? & ?).
    split; [ assumption | ].
    split; [ lia | ].
    split; [ rewrite created_app; now rewrite Hc1 | ].
    split; [ congruence | ].
    split; [ congruence | ].
    eapply same_view_trans; eassumption.
Qed.

(** At most two moves only count. *)
Lemma run_moves_below (moves : list (ClientRect * PointerEvent)) :
  forall w, isDrawing w = true ->
    (drawPxMove w + length moves <= 2)%nat ->
    run (map (fun m => PointerMove (fst m) (snd m)) moves) w
    = (set_drawing true (drawPxMove w + length moves) w, []).
Proof.
  induction moves as [ | m moves IH ]; intros w Hd Hle.
  - simpl. destruct w; simpl in *. subst. now rewrite Nat.add_0_r.
  - cbn [map run dispatch length] in *. unfold onUpdateNewAnnotation.
    rewrite Hd.
    destruct (Nat.ltb_spec 2
                (drawPxMove (set_drawing true (S (drawPxMove w)) w)));
      [ simpl in *; lia | ].
    rewrite IH; [ | reflexivity | simpl; lia ].
    unfold set_drawing. simpl. do 2 f_equal. lia.
Qed.

(** The calls of a whole gesture: none before pointer-up, then one
    [onAnnotationCreated] exactly when more than two moves were counted. *)
Lemma gesture_created (w : Workbench) (down up : ClientRect * PointerEvent)
  (moves : list (ClientRect * PointerEvent)) :
  let before := run (dragging down moves) w in
  let after := run (gesture down moves up) w in
  created (snd before) = [] /\
  isDrawing (fst before) = true /\
  drawPxMove (fst before) = length moves /\
  drawStartTime (fst before)
  = getTimeFromClientX (fst down) w (clientX (snd down)) /\
  drawStartFrequency (fst before)
  = getFrequencyFromClientY (fst down) w (clientY (snd down)) /\
  same_view w (fst before) /\
  after = (fst (onEndNewAnnotation (fst up) (snd up) (fst before)),
           snd (before) ++
           snd (onEndNewAnnotation (fst up) (snd up) (fst before))).
Proof.
  cbv zeta.
  change (gesture down moves up)
    with (dragging down moves ++ [PointerUp (fst up) (snd up)]).
  rewrite run_app.
  unfold dragging. cbn [run dispatch].
  destruct (onStartNewAnnotation_spec (fst down) (snd down) w)
    as (Hc & Hd & Hn & Ht & Hf & _ & Hv).
  destruct (onStartNewAnnotation (fst down) (snd down) w) as [w1 c1].
  simpl in Hc, Hd, Hn, Ht, Hf, Hv. subst c1.
  pose proof (run_moves moves w1 Hd) as Hm. cbv zeta in Hm.
  destruct (run (map (fun m => PointerMove (fst m) (snd m)) moves) w1)
    as [w2 c2].
  simpl in Hm. destruct Hm as (Hd2 & Hn2 & Hc2 & Ht2 & Hf2 & Hv2).
  cbn [fst snd app].
  destruct (onEndNewAnnotation (fst up) (snd up) w2) as [w3 c3].
  cbn [fst snd].
  split; [ assumption | ].
  split; [ assumption | ].
  split; [ lia | ].
  split; [ congruence | ].
  split; [ congruence | ].
  split; [ eapply same_view_trans; eassumption | ].
  now rewrite app_nil_r.
Qed.

Lemma onEndNewAnnotation_created (b : ClientRect) (e : PointerEvent)
  (w : Workbench) :
  isDrawing w = true ->
  created (snd (onEndNewAnnotation b e w))
  = if (2 <? drawPxMove w)%nat then [computeNewAnnotation b e w] else [].
Proof.
  intros Hd. unfold onEndNewAnnotation. rewrite Hd.
  now destruct (2 <? drawPxMove w)%nat.
Qed.

Lemma min_le_max (a b : Q) : Qmin a b <= Qmax a b.
Proof.
  apply Qle_trans with a; [ apply Q.le_min_l | apply Q.le_max_l ].
Qed.

(** The annotation computed from an instance that kept the view of [w] and
    recorded the point [origin] is the rectangle between [origin] and the
    current point, and is not inverted. *)
Lemma computeNewAnnotation_normalized (w w' : Workbench)
  (origin current : ClientRect * PointerEvent) :
  same_view w w' ->
  drawStartTime w'
  = getTimeFromClientX (fst origin) w (clientX (snd origin)) ->
  drawStartFrequency w'
  = getFrequencyFromClientY (fst origin) w (clientY (snd origin)) ->
  let a := computeNewAnnotation (fst current) (snd current) w' in
  normalized w origin current a /\
  startTime a <= endTime a /\
  startFrequency a <= endFrequency a.
Proof.
  intros Hv Ht Hf. unfold normalized. cbn [computeNewAnnotation
    startTime endTime startFrequency endFrequency].
  unfold computeNewAnnotation.
  rewrite (getTimeFromClientX_view w w' _ _ Hv),
          (getFrequencyFromClientY_view w w' _ _ Hv), Ht, Hf.
  cbn [startTime endTime startFrequency endFrequency].
  repeat split;
    auto using Q.min_comm, Q.max_comm, min_le_max.
Qed.

(** What a whole gesture creates is decided at pointer-up by the number
    of moves counted. *)
Lemma gesture_created_at_up (w : Workbench)
  (down up : ClientRect * PointerEvent)
  (moves : list (ClientRect * PointerEvent)) :
  created (snd (run (gesture down moves up) w))
  = if (2 <? length moves)%nat
    then [computeNewAnnotation (fst up) (snd up)
            (fst (run (dragging down moves) w))]
    else [].
Proof.
  destruct (gesture_created w down up moves)
    as (Hc & Hd & Hn & _ & _ & _ & Hrun).
  cbv zeta in Hrun. rewrite Hrun. cbn [snd].
  rewrite created_app, Hc. cbn [app].
  now rewrite (onEndNewAnnotation_created _ _ _ Hd), Hn.
Qed.

(** C1, as amended.  In a gesture of a pointer-down, [m] pointer-moves
    and a pointer-up, nothing is created before the pointer-up; with
    [m <= 2] nothing is created at all, and with [m > 2] exactly one
    annotation is created, by the pointer-up handler. *)
Theorem gesture_creates_past_two_moves (w : Workbench)
  (down up : ClientRect * PointerEvent)
  (moves : list (ClientRect * PointerEvent)) :
  let before := run (dragging down moves) w in
  let at_up := onEndNewAnnotation (fst up) (snd up) (fst before) in
  let calls := snd (run (gesture down moves up) w) in
  created (snd before) = [] /\
  created calls = created (snd at_up) /\
  ((length moves <= 2)%nat -> created calls = []) /\
  ((2 < length moves)%nat ->
   created calls = [computeNewAnnotation (fst up) (snd up) (fst before)]).
Proof.
  cbv zeta.
  destruct (gesture_created w down up moves)
    as (Hc & Hd & Hn & _ & _ & _ & ->).
  cbn [snd]. rewrite created_app, Hc. cbn [app].
  rewrite (onEndNewAnnotation_created _ _ _ Hd), Hn.
  split; [ reflexivity | ]. split; [ reflexivity | ].
  split; intros Hm.
  - destruct (Nat.ltb_spec 2 (length moves)); [ lia | reflexivity ].
  - destruct (Nat.ltb_spec 2 (length moves)); [ reflexivity | lia ].
Qed.

Lemma gesture_creates_past_two_moves_witness :
  created (snd (run (gesture (Sample.at_ 100 100)
                       [Sample.at_ 110 110; Sample.at_ 120 120]
                       (Sample.at_ 140 140))
                    (Sample.mounted 900 7))) = [] /\
  length (created (snd (run (gesture (Sample.at_ 100 100)
                               [Sample.at_ 110 110; Sample.at_ 120 120;
                                Sample.at_ 130 130]
                               (Sample.at_ 140 140))
                            (Sample.mounted 900 7)))) = 1%nat.
Proof.
  destruct (gesture_creates_past_two_moves (Sample.mounted 900 7)
              (Sample.at_ 100 100) (Sample.at_ 140 140)
              [Sample.at_ 110 110; Sample.at_ 120 120]) as (_ & _ & H2 & _).
  destruct (gesture_creates_past_two_moves (Sample.mounted 900 7)
              (Sample.at_ 100 100) (Sample.at_ 140 140)
              [Sample.at_ 110 110; Sample.at_ 120 120; Sample.at_ 130 130])
    as (_ & _ & _ & H3).
  split; [ apply H2; simpl; lia | ].
  rewrite H3 by (simpl; lia). reflexivity.
Defined.

(** The claim C1 as first stated fails: a gesture with three moves is
    within its bound [m <= 3], and the pointer-up creates an annotation. *)
Lemma three_moves_create_an_annotation :
  length (created (snd (run (gesture (Sample.at_ 100 100)
                               [Sample.at_ 110 110; Sample.at_ 120 120;
                                Sample.at_ 130 130]
                               (Sample.at_ 140 140))
                            (Sample.mounted 900 7)))) = 1%nat /\
  ~ (forall w down up moves,
       (length moves <= 3)%nat ->
       created (snd (run (gesture down moves up) w)) = []).
Proof.
  split; [ reflexivity | ].
  intros H.
  specialize (H (Sample.mounted 900 7) (Sample.at_ 100 100)
                (Sample.at_ 140 140)
                [Sample.at_ 110 110; Sample.at_ 120 120; Sample.at_ 130 130]).
  assert (E : length (created (snd (run (gesture (Sample.at_ 100 100)
                               [Sample.at_ 110 110; Sample.at_ 120 120;
                                Sample.at_ 130 130]
                               (Sample.at_ 140 140))
                            (Sample.mounted 900 7)))) = 0%nat)
    by (rewrite H; [ reflexivity | simpl; lia ]).
  vm_compute in E. discriminate.
Qed.

(** C3.  During a drag whose origin was recorded at pointer-down, every
    move from the third on stores as draft, and a pointer-up after more
    than two moves hands to [onAnnotationCreated], the rectangle with
    [startTime = min(t0, t1)], [endTime = max(t0, t1)], [startFrequency =
    min(f0, f1)] and [endFrequency = max(f0, f1)], where [(t0, f0)] is the
    origin and [(t1, f1)] the current point; so [startTime <= endTime] and
    [startFrequency <= endFrequency] whatever the direction of the drag. *)
Theorem drag_annotation_normalized (w : Workbench)
  (down current : ClientRect * PointerEvent)
  (moves : list (ClientRect * PointerEvent)) :
  ((2 <= length moves)%nat ->
   exists a,
     newAnnotation (state (fst (run (dragging down (moves ++ [current])) w)))
     = Some a /\
     normalized w down current a /\
     startTime a <= endTime a /\ startFrequency a <= endFrequency a) /\
  ((2 < length moves)%nat ->
   exists a,
     created (snd (run (gesture down moves current) w)) = [a] /\
     normalized w down current a /\
     startTime a <= endTime a /\ startFrequency a <= endFrequency a).
Proof.
  destruct (gesture_created w down current moves)
    as (Hc & Hd & Hn & Ht & Hf & Hv & Hrun).
  cbv zeta in Hrun. split; intros Hm.
  - unfold dragging in *. rewrite map_app, app_comm_cons, run_app.
    destruct (run (PointerDown (fst down) (snd down)
                   :: map (fun m => PointerMove (fst m) (snd m)) moves) w)
      as [w2 c2].
    cbn [fst snd] in *. cbn [map run dispatch].
    unfold onUpdateNewAnnotation. rewrite Hd.
    destruct (Nat.ltb_spec 2 (drawPxMove
                (set_drawing true (S (drawPxMove w2)) w2)));
      [ | simpl in *; lia ].
    cbn [fst snd state newAnnotation setState with_newAnnotation].
    eexists. split; [ reflexivity | ].
    apply computeNewAnnotation_normalized; [ | exact Ht | exact Hf ].
    exact Hv.
  - rewrite gesture_created_at_up.
    destruct (Nat.ltb_spec 2 (length moves)); [ | lia ].
    eexists. split; [ reflexivity | ].
    apply computeNewAnnotation_normalized; assumption.
Qed.

Lemma drag_annotation_normalized_witness :
  (exists a,
     newAnnotation
       (state (fst (run (dragging (Sample.at_ 900 200)
                           ([Sample.at_ 800 250; Sample.at_ 700 300]
                            ++ [Sample.at_ 600 400]))
                        (Sample.mounted 900 7))))
     = Some a /\
     normalized (Sample.mounted 900 7) (Sample.at_ 900 200)
                (Sample.at_ 600 400) a /\
     startTime a <= endTime a /\ startFrequency a <= endFrequency a) /\
  (exists a,
     created (snd (run (gesture (Sample.at_ 900 200)
                          [Sample.at_ 800 250; Sample.at_ 700 300;
                           Sample.at_ 600 400]
                          (Sample.at_ 500 500))
                       (Sample.mounted 900 7))) = [a] /\
     normalized (Sample.mounted 900 7) (Sample.at_ 900 200)
                (Sample.at_ 500 500) a /\
     startTime a <= endTime a /\ startFrequency a <= endFrequency a).
Proof.
  split.
  - apply (drag_annotation_normalized (Sample.mounted 900 7)
             (Sample.at_ 900 200) (Sample.at_ 600 400)
             [Sample.at_ 800 250; Sample.at_ 700 300]).
    simpl. lia.
  - apply (drag_annotation_normalized (Sample.mounted 900 7)
             (Sample.at_ 900 200) (Sample.at_ 500 500)
             [Sample.at_ 800 250; Sample.at_ 700 300; Sample.at_ 600 400]).
    simpl. lia.
Defined.

Lemma Qfloor_zero_product (t r : Q) : Qfloor ((t - t) * r) = 0%Z.
Proof.
  assert (E : (t - t) * r == 0) by ring.
  now rewrite E.
Qed.

(** C10.  After a pointer-down, at most two pointer-moves and a
    pointer-up, the instance is the one pointer-down left with only the
    drawing flag and the move counter reset: no call is made, and
    [newAnnotation] still holds the zero-width draft of the pointer-down
    point, which [renderCanvas] strokes as a rectangle of width and height
    0.  The next pointer-down replaces it; only a pointer-up after more
    than two moves sets [newAnnotation] back to [undefined]. *)
Theorem click_keeps_point_draft (w : Workbench)
  (down up : ClientRect * PointerEvent)
  (moves : list (ClientRect * PointerEvent)) :
  (length moves <= 2)%nat ->
  let t := getTimeFromClientX (fst down) w (clientX (snd down)) in
  let f := getFrequencyFromClientY (fst down) w (clientY (snd down)) in
  let w1 := fst (onStartNewAnnotation (fst down) (snd down) w) in
  let r := run (gesture down moves up) w in
  r = (set_drawing false 0 w1, []) /\
  isDrawing (fst r) = false /\ drawPxMove (fst r) = 0%nat /\
  newAnnotation (state (fst r)) = Some (pointDraft t f) /\
  (forall complete,
     In (newAnnotationRect (fst r) (pointDraft t f))
        (renderCanvas complete (fst r))) /\
  (exists x y, newAnnotationRect (fst r) (pointDraft t f)
               = strokeRect x y 0 0) /\
  (forall b e,
     newAnnotation (state (fst (onStartNewAnnotation b e (fst r))))
     = Some (pointDraft (getTimeFromClientX b (fst r) (clientX e))
                        (getFrequencyFromClientY b (fst r) (clientY e)))) /\
  (forall longer : list (ClientRect * PointerEvent),
     (2 < length longer)%nat ->
     newAnnotation (state (fst (run (gesture down longer up) w))) = None).
Proof.
  intros Hm. cbv zeta.
  assert (Hrun : run (gesture down moves up) w
                 = (set_drawing false 0
                      (fst (onStartNewAnnotation (fst down) (snd down) w)),
                    [])).
  { change (gesture down moves up)
      with (PointerDown (fst down) (snd down)
            :: (map (fun m => PointerMove (fst m) (snd m)) moves
                ++ [PointerUp (fst up) (snd up)])).
    cbn [run dispatch].
    destruct (onStartNewAnnotation_spec (fst down) (snd down) w)
      as (Hc & Hd & Hn & _).
    destruct (onStartNewAnnotation (fst down) (snd down) w) as [w1 c1].
    cbn [fst snd] in *. subst c1.
    rewrite run_app, (run_moves_below moves w1 Hd) by lia.
    cbn [run dispatch]. unfold onEndNewAnnotation.
    cbn [isDrawing drawPxMove set_drawing andb].
    destruct (Nat.ltb_spec 2 (drawPxMove w1 + length moves)); [ lia | ].
    reflexivity. }
  rewrite Hrun. cbn [fst snd].
  split; [ reflexivity | ].
  split; [ reflexivity | ].
  split; [ reflexivity | ].
  split; [ reflexivity | ].
  split.
  { intros complete. unfold renderCanvas.
    apply in_or_app. right. apply in_or_app. right.
    apply in_or_app. right. left. reflexivity. }
  split.
  { unfold newAnnotationRect.
    cbn [startTime endTime startFrequency endFrequency pointDraft].
    rewrite !Qfloor_zero_product. do 2 eexists. reflexivity. }
  split; [ reflexivity | ].
  intros longer Hlong.
  destruct (gesture_created w down up longer)
    as (_ & Hd & Hn & _ & _ & _ & ->).
  cbn [fst]. unfold onEndNewAnnotation. rewrite Hd, Hn.
  destruct (Nat.ltb_spec 2 (length longer)); [ reflexivity | lia ].
Qed.

Lemma click_keeps_point_draft_witness :
  run (gesture (Sample.at_ 100 100)
         [Sample.at_ 101 100; Sample.at_ 101 101] (Sample.at_ 101 101))
      (Sample.mounted 900 7)
  = (set_drawing false 0
       (fst (onStartNewAnnotation (fst (Sample.at_ 100 100))
                                  (snd (Sample.at_ 100 100))
                                  (Sample.mounted 900 7))),
     []).
Proof.
  apply (click_keeps_point_draft (Sample.mounted 900 7)
           (Sample.at_ 100 100) (Sample.at_ 101 101)
           [Sample.at_ 101 100; Sample.at_ 101 101]).
  simpl. lia.
Defined.

(** ** Tile pyramid builder *)

Lemma log2_int_pow2 (k : nat) :
  Js.log2_int (Z.of_nat (2 ^ k - 1) + 1) = Some k.
Proof.
  assert (Hpos : (1 <= 2 ^ k)%nat)
    by (apply Nat.neq_0_lt_0, Nat.pow_nonzero; discriminate).
  assert (E : (Z.of_nat (2 ^ k - 1) + 1 = 2 ^ Z.of_nat k)%Z).
  { rewrite Nat2Z.inj_sub, Nat2Z.inj_pow by exact Hpos.
    change (Z.of_nat 2) with 2%Z. change (Z.of_nat 1) with 1%Z. lia. }
  unfold Js.log2_int. rewrite E, Z.log2_pow2 by lia.
  now rewrite Z.eqb_refl, Nat2Z.id.
Qed.

Lemma indices_get (n : nat) (i : Z) :
  (0 <= i < Z.of_nat n)%Z -> Js.get (Js.indices n) i = Some i.
Proof.
  intros Hi. unfold Js.get, Js.indices.
  destruct (Z.ltb_spec i 0); [ lia | ].
  rewrite nth_error_map, nth_error_seq.
  destruct (Nat.ltb_spec (Z.to_nat i) n); [ | lia ].
  simpl. f_equal. lia.
Qed.

Lemma get_map {A B} (f : A -> B) (xs : list A) (i : Z) :
  Js.get (map f xs) i = option_map f (Js.get xs i).
Proof.
  unfold Js.get. destruct (i <? 0)%Z; [ reflexivity | ].
  apply nth_error_map.
Qed.

Lemma get_in_range {A} (xs : list A) (i : Z) (x : A) :
  Js.get xs i = Some x -> (0 <= i < Z.of_nat (length xs))%Z.
Proof.
  intros H. apply get_some in H. destruct H as [H0 H].
  assert (Z.to_nat i < length xs)%nat
    by (apply nth_error_Some; congruence).
  lia.
Qed.

Lemma buildImages_length (d : Q) (z : Z) :
  length (buildImages d z) = Z.to_nat z.
Proof.
  unfold buildImages, Js.indices. now rewrite !length_map, length_seq.
Qed.

Lemma buildImages_get (d : Q) (z i : Z) :
  (0 <= i < z)%Z ->
  Js.get (buildImages d z) i
  = Some {| start := inject_Z i * (d / inject_Z z);
            end_ := inject_Z (i + 1) * (d / inject_Z z) |}.
Proof.
  intros Hi. unfold buildImages.
  rewrite get_map, indices_get by lia. reflexivity.
Qed.

Lemma step_positive (d : Q) (z : Z) :
  0 < d -> (0 < z)%Z -> 0 < d / inject_Z z.
Proof.
  intros Hd Hz. apply Qlt_shift_div_l.
  - change 0 with (inject_Z 0). now rewrite <- Zlt_Qlt.
  - now rewrite Qmult_0_l.
Qed.

(** The tiles of one level: [z] tiles of equal length that follow one
    another from [0] to [d]. *)
Lemma buildImages_tiling (d : Q) (z : Z) :
  0 < d -> (0 < z)%Z ->
  covers d z (buildImages d z) /\
  contiguous (buildImages d z) /\
  non_overlapping (buildImages d z) /\
  spans d (buildImages d z).
Proof.
  intros Hd Hz.
  pose proof (step_positive d z Hd Hz) as Hstep.
  assert (Hrange : forall i t, Js.get (buildImages d z) i = Some t ->
                               (0 <= i < z)%Z).
  { intros i t H. apply get_in_range in H.
    rewrite buildImages_length in H. lia. }
  split; [ | split; [ | split ] ].
  - split; [ apply buildImages_length | ].
    intros i Hi. eexists. split; [ apply buildImages_get, Hi | ].
    cbn [start end_]. unfold Qdiv. split; ring.
  - intros i a b Ha Hb.
    pose proof (Hrange _ _ Ha) as Hi. pose proof (Hrange _ _ Hb) as Hi'.
    rewrite buildImages_get in Ha, Hb by lia.
    injection Ha as <-. injection Hb as <-. reflexivity.
  - intros i j a b Hij Ha Hb.
    pose proof (Hrange _ _ Ha) as Hi. pose proof (Hrange _ _ Hb) as Hj.
    rewrite buildImages_get in Ha, Hb by lia.
    injection Ha as <-. injection Hb as <-. cbn [start end_].
    split; [ | split ].
    + apply Qmult_lt_compat_r; [ exact Hstep | ].
      rewrite <- Zlt_Qlt. lia.
    + apply Qmult_le_compat_r; [ | apply Qlt_le_weak, Hstep ].
      rewrite <- Zle_Qle. lia.
    + apply Qmult_lt_compat_r; [ exact Hstep | ].
      rewrite <- Zlt_Qlt. lia.
  - unfold spans. do 2 eexists.
    rewrite buildImages_length, Z2Nat.id by lia.
    split; [ apply buildImages_get; lia | ].
    split; [ apply buildImages_get; lia | ].
    cbn [start end_]. split.
    + apply Qmult_0_l.
    + replace (z - 1 + 1)%Z with z by lia.
      apply Qmult_div_r.
      intros E. apply (inject_Z_injective z 0) in E. lia.
Qed.

(** C6.  For a configuration with [2^k - 1] URLs, [k >= 1], and a duration
    [d > 0], the builder returns exactly [k] zoom levels, of factors
    [1, 2, 4, ..., 2^(k-1)] in this order, each carrying the parameters of
    the configuration; the level of factor [z] has [z] tiles, tile [i]
    covers [[i*d/z, (i+1)*d/z)], each tile ends where the next one starts,
    no two tiles overlap, and the first starts at [0] and the last ends at
    [d].  Built from props holding this one configuration,
    [buildSpectrogramsDetails] returns the same levels. *)
Theorem buildConfDetails_pyramid (d : Q) (conf : SpectroUrlsParams)
  (k : nat) :
  (1 <= k)%nat ->
  length (urls conf) = (2 ^ k - 1)%nat ->
  0 < d ->
  exists levels,
    buildConfDetails d conf = Js.Ok levels /\
    (forall p, duration p = d -> spectroUrlsParams p = [conf] ->
               buildSpectrogramsDetails p = Js.Ok levels) /\
    length levels = k /\
    map zoom_factor levels = map (fun i => 2 ^ i)%Z (Js.indices k) /\
    Forall (fun level =>
              nfft level = conf_nfft conf /\
              winsize level = conf_winsize conf /\
              overlap level = conf_overlap conf /\
              covers d (zoom_factor level) (images level) /\
              contiguous (images level) /\
              non_overlapping (images level) /\
              spans d (images level))
           levels.
Proof.
  intros Hk Hlen Hd.
  assert (Hpos : (2 <= 2 ^ k)%nat).
  { destruct k as [ | k ]; [ lia | ].
    rewrite Nat.pow_succ_r'.
    assert (1 <= 2 ^ k)%nat
      by (apply Nat.neq_0_lt_0, Nat.pow_nonzero; discriminate).
    lia. }
  unfold buildConfDetails.
  destruct (urls conf) as [ | u us ] eqn:Eu; [ simpl in Hlen; lia | ].
  rewrite Hlen, log2_int_pow2.
  eexists. split; [ reflexivity | ].
  split.
  { intros p Hp Hc. unfold buildSpectrogramsDetails, Js.flatMapM.
    rewrite Hc, Hp. cbn [Js.mapM Js.bind]. unfold buildConfDetails.
    rewrite Eu, Hlen, log2_int_pow2. cbn [Js.bind concat].
    now rewrite app_nil_r. }
  split.
  { unfold Js.indices. now rewrite !length_map, length_seq. }
  split.
  { rewrite map_map. cbn [zoom_factor]. now rewrite map_id. }
  apply Forall_forall. intros level Hin.
  apply in_map_iff in Hin. destruct Hin as (z & <- & Hz).
  apply in_map_iff in Hz. destruct Hz as (i & <- & Hi).
  apply in_map_iff in Hi. destruct Hi as (n & <- & _).
  cbn [nfft winsize overlap zoom_factor images].
  assert (Hzpos : (0 < 2 ^ Z.of_nat n)%Z)
    by (apply Z.pow_pos_nonneg; lia).
  split; [ reflexivity | ].
  split; [ reflexivity | ].
  split; [ reflexivity | ].
  apply (buildImages_tiling d (2 ^ Z.of_nat n) Hd Hzpos).
Qed.

Lemma buildConfDetails_pyramid_witness :
  exists levels,
    buildConfDetails 900 (Sample.conf 7) = Js.Ok levels /\
    length levels = 3%nat /\
    map zoom_factor levels = [1; 2; 4]%Z.
Proof.
  destruct (buildConfDetails_pyramid 900 (Sample.conf 7) 3)
    as (levels & Hbuilt & _ & Hlen & Hfactors & _);
    [ lia | reflexivity | reflexivity | ].
  exists levels. repeat split; assumption.
Defined.

(* ------------------------------------------------------------------ *)
(** * Further properties of the Workbench *)

(** ** Invariant of the view *)

Lemma view_invariant_constructor (p : WorkbenchProps) :
  view_invariant (constructor p).
Proof. repeat split. Qed.

Lemma view_invariant_zoom (direction : Z) (w w' : Workbench) :
  view_invariant w -> zoom direction w = Some w' -> view_invariant w'.
Proof.
  intros (Hww & Hwh & Hh & Hth & Hf & _) Hz. unfold zoom in Hz.
  destruct (newZoom direction w) as [ z | ]; [ | discriminate ].
  injection Hz as <-. unfold view_invariant. cbn.
  repeat split; try assumption; reflexivity.
Qed.

Lemma view_invariant_dispatch (ev : Event) (w : Workbench) :
  view_invariant w -> view_invariant (fst (dispatch ev w)).
Proof.
  intros Hv. destruct ev as [ b e | b e | b e | b e ]; cbn [dispatch].
  - exact Hv.
  - unfold onUpdateNewAnnotation.
    destruct (isDrawing w); [ | exact Hv ].
    destruct (2 <? _)%nat; exact Hv.
  - unfold onEndNewAnnotation.
    destruct (isDrawing w && (2 <? drawPxMove w)%nat); exact Hv.
  - exact Hv.
Qed.

Lemma view_invariant_perform (a : Action) (w w' : Workbench)
  (calls : list Call) :
  view_invariant w -> perform a w = Some (w', calls) -> view_invariant w'.
Proof.
  intros Hv Hp. destruct a as [ | ev | direction | event | t ];
    cbn [perform] in Hp.
  - unfold componentDidMount in Hp.
    destruct (buildSpectrogramsDetails (props w)); [ | discriminate ].
    cbn in Hp. injection Hp as <- _. exact Hv.
  - injection Hp as Hp.
    replace w' with (fst (dispatch ev w)) by now rewrite Hp.
    now apply view_invariant_dispatch.
  - destruct (zoom direction w) as [ w1 | ] eqn:Hz; [ | discriminate ].
    cbn in Hp. injection Hp as <- _.
    eapply view_invariant_zoom; eassumption.
  - unfold onWheelZoom in Hp.
    destruct (Js.ltb (deltaY event) 0).
    + destruct (zoom 1 w) as [ w1 | ] eqn:Hz; [ | discriminate ].
      cbn in Hp. injection Hp as <- _.
      eapply view_invariant_zoom; eassumption.
    + destruct (Js.ltb 0 (deltaY event)).
      * destruct (zoom (-1) w) as [ w1 | ] eqn:Hz; [ | discriminate ].
        cbn in Hp. injection Hp as <- _.
        eapply view_invariant_zoom; eassumption.
      * cbn in Hp. injection Hp as <- _. exact Hv.
  - injection Hp as <- _. exact Hv.
Qed.

(** What no action changes in the props. *)
Lemma perform_props (a : Action) (w w' : Workbench) (calls : list Call) :
  perform a w = Some (w', calls) ->
  duration (props w') = duration (props w) /\
  props_startFrequency (props w') = props_startFrequency (props w) /\
  frequencyRange (props w') = frequencyRange (props w) /\
  spectroUrlsParams (props w') = spectroUrlsParams (props w).
Proof.
  intros Hp. destruct a as [ | ev | direction | event | t ];
    cbn [perform] in Hp.
  - unfold componentDidMount in Hp.
    destruct (buildSpectrogramsDetails (props w)); [ | discriminate ].
    cbn in Hp. injection Hp as <- _. repeat split.
  - injection Hp as Hp.
    replace w' with (fst (dispatch ev w)) by now rewrite Hp.
    clear Hp. destruct ev as [ b e | b e | b e | b e ]; cbn [dispatch].
    + repeat split.
    + unfold onUpdateNewAnnotation.
      destruct (isDrawing w); [ | repeat split ].
      destruct (2 <? _)%nat; repeat split.
    + unfold onEndNewAnnotation.
      destruct (isDrawing w && (2 <? drawPxMove w)%nat); repeat split.
    + repeat split.
  - destruct (zoom direction w) as [ w1 | ] eqn:Hz; [ | discriminate ].
    cbn in Hp. injection Hp as <- _.
    apply zoom_inv in Hz. destruct Hz as (_ & _ & _ & ->). repeat split.
  - unfold onWheelZoom in Hp.
    destruct (Js.ltb (deltaY event) 0).
    + destruct (zoom 1 w) as [ w1 | ] eqn:Hz; [ | discriminate ].
      cbn in Hp. injection Hp as <- _.
      apply zoom_inv in Hz. destruct Hz as (_ & _ & _ & ->). repeat split.
    + destruct (Js.ltb 0 (deltaY event)).
      * destruct (zoom (-1) w) as [ w1 | ] eqn:Hz; [ | discriminate ].
        cbn in Hp. injection Hp as <- _.
        apply zoom_inv in Hz. destruct Hz as (_ & _ & _ & ->). repeat split.
      * cbn in Hp. injection Hp as <- _. repeat split.
  - injection Hp as <- _. repeat split.
Qed.

(** X1.  Whatever actions a constructed instance goes through (mounting,
    pointer events, zoom buttons, wheel events, new playback times), as
    long as none of them throws or stores an undefined zoom factor: the
    width of both canvases is [wrapperWidth * currentZoom], [timePxRatio]
    is [wrapperWidth * currentZoom / duration], and [wrapperWidth],
    the heights and [freqPxRatio] are those of the constructor; the
    duration and the frequency window of the props are unchanged. *)
Theorem view_invariant_reachable (p : WorkbenchProps) (acts : list Action)
  (w : Workbench) (calls : list Call) :
  perform_all acts (constructor p) = Some (w, calls) ->
  view_invariant w /\
  duration (props w) = duration p /\
  props_startFrequency (props w) = props_startFrequency p /\
  frequencyRange (props w) = frequencyRange p /\
  freqPxRatio (state w) = CANVAS_HEIGHT / frequencyRange p.
Proof.
  assert (Hgen : forall acts w0 w calls,
    perform_all acts w0 = Some (w, calls) ->
    view_invariant w0 ->
    view_invariant w /\
    duration (props w) = duration (props w0) /\
    props_startFrequency (props w) = props_startFrequency (props w0) /\
    frequencyRange (props w) = frequencyRange (props w0)).
  { clear. induction acts as [ | a acts IH ]; intros w0 w calls Hrun Hv.
    - injection Hrun as <- _. split; [ exact Hv | repeat split ].
    - cbn [perform_all] in Hrun.
      destruct (perform a w0) as [ [w1 c1] | ] eqn:Hp; [ | discriminate ].
      destruct (perform_all acts w1) as [ [w2 c2] | ] eqn:Hr;
        [ | discriminate ].
      injection Hrun as <- _.
      pose proof (view_invariant_perform _ _ _ _ Hv Hp) as Hv1.
      destruct (perform_props _ _ _ _ Hp) as (Hd & Hs & Hf & _).
      destruct (IH _ _ _ Hr Hv1) as (Hv2 & Hd2 & Hs2 & Hf2).
      split; [ exact Hv2 | ]. repeat split; congruence. }
  intros Hrun.
  destruct (Hgen _ _ _ _ Hrun (view_invariant_constructor p))
    as (Hv & Hd & Hs & Hf).
  split; [ exact Hv | ]. split; [ exact Hd | ]. split; [ exact Hs | ].
  split; [ exact Hf | ].
  destruct Hv as (_ & _ & _ & _ & Hr & _). now rewrite Hr, Hf.
Qed.
Lemma view_invariant_reachable_witness :
  exists w calls,
    perform_all
      [Mount; ZoomButton 1; Wheel (Sample.wheel (-3));
       Pointer (PointerDown Sample.bounds {| clientX := 100; clientY := 100 |});
       CurrentTime 12; ZoomButton (-1)]
      (constructor (Sample.sprops 900 7)) = Some (w, calls) /\
    view_invariant w /\ currentZoom (state w) = 2%Z.
Proof.
  destruct (perform_all
      [Mount; ZoomButton 1; Wheel (Sample.wheel (-3));
       Pointer (PointerDown Sample.bounds {| clientX := 100; clientY := 100 |});
       CurrentTime 12; ZoomButton (-1)]
      (constructor (Sample.sprops 900 7))) as [ [w calls] | ] eqn:E.
  - exists w, calls. split; [ reflexivity | ].
    split; [ apply (view_invariant_reachable _ _ _ _ E) | ].
    vm_compute in E. injection E as <- _. reflexivity.
  - vm_compute in E. discriminate.
Defined.

(** ** Pointer positions and the recording *)

Lemma div_le_compat (a b r : Q) : 0 < r -> a <= b -> a / r <= b / r.
Proof.
  intros Hr Hab. unfold Qdiv. apply Qmult_le_compat_r; [ exact Hab | ].
  apply Qlt_le_weak, Qinv_lt_0_compat, Hr.
Qed.













(** ** Where an annotation is shown *)

Lemma div_mul_cancel (a r : Q) : ~ r == 0 -> a / r * r == a.
Proof. intros Hr. field. exact Hr. Qed.

Lemma Qmin_scale (a b r : Q) : 0 < r -> Qmin (a / r) (b / r) * r == Qmin a b.
Proof.
  intros Hr.
  assert (Hne : ~ r == 0) by lra.
  destruct (Qlt_le_dec b a) as [ Hlt | Hle ].
  - rewrite (Q.min_r a b) by lra.
    rewrite Q.min_r by (apply div_le_compat; [ assumption | lra ]).
    now apply div_mul_cancel.
  - rewrite (Q.min_l a b) by lra.
    rewrite Q.min_l by (apply div_le_compat; assumption).
    now apply div_mul_cancel.
Qed.

Lemma Qmax_scale (a b r : Q) : 0 < r -> Qmax (a / r) (b / r) * r == Qmax a b.
Proof.
  intros Hr.
  assert (Hne : ~ r == 0) by lra.
  destruct (Qlt_le_dec b a) as [ Hlt | Hle ].
  - rewrite (Q.max_l a b) by lra.
    rewrite Q.max_l by (apply div_le_compat; [ assumption | lra ]).
    now apply div_mul_cancel.
  - rewrite (Q.max_r a b) by lra.
    rewrite Q.max_r by (apply div_le_compat; assumption).
    now apply div_mul_cancel.
Qed.

Lemma Qmin_shift (a b c : Q) : Qmin (a - c) (b - c) == Qmin a b - c.
Proof.
  destruct (Qlt_le_dec b a) as [ Hlt | Hle ].
  - rewrite (Q.min_r a b), Q.min_r by lra. reflexivity.
  - rewrite (Q.min_l a b), Q.min_l by lra. reflexivity.
Qed.

Lemma Qmax_flip (a b c : Q) : Qmax (c - a) (c - b) == c - Qmin a b.
Proof.
  destruct (Qlt_le_dec b a) as [ Hlt | Hle ].
  - rewrite (Q.min_r a b), Q.max_r by lra. reflexivity.
  - rewrite (Q.min_l a b), Q.max_l by lra. reflexivity.
Qed.

Lemma Qmax_plus (a b c : Q) : Qmax (c + a) (c + b) == c + Qmax a b.
Proof.
  destruct (Qlt_le_dec b a) as [ Hlt | Hle ].
  - rewrite (Q.max_l a b), Q.max_l by lra. reflexivity.
  - rewrite (Q.max_r a b), Q.max_r by lra. reflexivity.
Qed.

Lemma getTimeFromClientX_interior (bounds : ClientRect) (w : Workbench)
  (x : Q) :
  rect_left bounds <= x <= rect_right bounds ->
  getTimeFromClientX bounds w x
  = (x - rect_left bounds) / timePxRatio (state w).
Proof.
  intros [Hl Hr]. unfold getTimeFromClientX.
  apply ltb_ge in Hl. apply ltb_ge in Hr. now rewrite Hl, Hr.
Qed.

(** X4.  A committed drag whose pointer-down and pointer-up both fall on
    the canvas (same bounding rectangle, as high as [CANVAS_HEIGHT],
    positive ratios): [renderRegion] places the created annotation with
    its left edge at the leftmost of the two pointer positions, and with
    its top edge at the topmost of the two, moved up by [startFrequency *
    freqPxRatio] pixels; the top edge is under the pointer only when the
    recording starts at 0 Hz. *)
Theorem region_where_drawn (w : Workbench) (bounds : ClientRect)
  (down up : PointerEvent) (moves : list (ClientRect * PointerEvent)) :
  0 < timePxRatio (state w) -> 0 < freqPxRatio (state w) ->
  rect_bottom bounds - rect_top bounds == CANVAS_HEIGHT ->
  rect_left bounds <= clientX down <= rect_right bounds ->
  rect_left bounds <= clientX up <= rect_right bounds ->
  rect_top bounds <= clientY down <= rect_bottom bounds ->
  rect_top bounds <= clientY up <= rect_bottom bounds ->
  (2 < length moves)%nat ->
  exists a,
    created (snd (run (gesture (bounds, down) moves (bounds, up)) w)) = [a] /\
    offsetLeft (renderRegion a w)
    == Qmin (clientX down) (clientX up) - rect_left bounds /\
    offsetTop (renderRegion a w)
    == Qmin (clientY down) (clientY up) - rect_top bounds
       - props_startFrequency (props w) * freqPxRatio (state w).
Proof.
  intros Hr Hf Hh Hx0 Hx1 Hy0 Hy1 Hm.
  rewrite gesture_created_at_up.
  destruct (Nat.ltb_spec 2 (length moves)); [ | lia ].
  eexists. split; [ reflexivity | ].
  destruct (gesture_created w (bounds, down) (bounds, up) moves)
    as (_ & _ & _ & Ht & Hfq & Hview & _).
  destruct (computeNewAnnotation_normalized w _ (bounds, down) (bounds, up)
              Hview Ht Hfq) as ((Es & _ & _ & Efe) & _).
  cbv zeta in Es, Efe. cbn [fst snd] in Es, Efe.
  unfold renderRegion. cbn [offsetLeft offsetTop].
  rewrite Es, Efe.
  rewrite (getTimeFromClientX_interior bounds w (clientX down) Hx0).
  rewrite (getTimeFromClientX_interior bounds w (clientX up) Hx1).
  unfold getFrequencyFromClientY.
  destruct Hy0 as [Hy0a Hy0b]. destruct Hy1 as [Hy1a Hy1b].
  apply ltb_ge in Hy0a, Hy0b, Hy1a, Hy1b.
  rewrite Hy0a, Hy0b, Hy1a, Hy1b.
  split.
  - rewrite Qmin_scale by assumption. apply Qmin_shift.
  - rewrite Qmax_plus, Qmult_plus_distr_l, Qmax_scale by assumption.
    rewrite Qmax_flip. lra.
Qed.

Lemma region_where_drawn_witness :
  exists a,
    created (snd (run (gesture (Sample.at_ 900 200)
                         [Sample.at_ 800 250; Sample.at_ 700 300;
                          Sample.at_ 600 400]
                         (Sample.at_ 500 500))
                      (Sample.mounted 900 7))) = [a] /\
    offsetLeft (renderRegion a (Sample.mounted 900 7)) == Qmin 900 500 - 35 /\
    offsetTop (renderRegion a (Sample.mounted 900 7))
    == Qmin 200 500 - 80 - 0 * (512 / 64000).
Proof.
  apply (region_where_drawn (Sample.mounted 900 7) Sample.bounds
           {| clientX := 900; clientY := 200 |}
           {| clientX := 500; clientY := 500 |}
           [Sample.at_ 800 250; Sample.at_ 700 300; Sample.at_ 600 400]);
    try reflexivity; try (split; vm_compute; discriminate).
  simpl. lia.
Defined.

(** ** Zoom requests at the ends of the level list *)

Lemma findIndex_upper {A} (p : A -> bool) (xs : list A) :
  (Js.findIndex p xs < Z.of_nat (length xs))%Z.
Proof.
  induction xs as [ | x xs IH ]; cbn [Js.findIndex length]; [ lia | ].
  destruct (p x); [ lia | ].
  destruct (Z.ltb_spec (Js.findIndex p xs) 0); lia.
Qed.

Lemma get_none {A} (xs : list A) (i : Z) :
  Js.get xs i = None <-> (i < 0 \/ Z.of_nat (length xs) <= i)%Z.
Proof.
  unfold Js.get. destruct (Z.ltb_spec i 0).
  - split; [ intros _; now left | reflexivity ].
  - rewrite nth_error_None. lia.
Qed.

(** X5.  [zoom] stores an undefined factor exactly on a zoom-in request
    made below the cap (index under 4) when no level follows the current
    one: the current factor is the last of at most four levels, or it is
    not among the levels and there is none (as before mounting).  A
    zoom-out request never does. *)
Theorem zoom_undefined_iff (direction : Z) (w : Workbench) :
  zoom direction w = None <->
  (0 < direction)%Z /\ (oldZoomIdx w < 4)%Z /\
  (Z.of_nat (length (zoomLevels w)) <= oldZoomIdx w + 1)%Z.
Proof.
  pose proof (findIndex_lower
                (fun factor => (factor =? currentZoom (state w))%Z)
                (zoomLevels w)) as Hlo.
  pose proof (findIndex_upper
                (fun factor => (factor =? currentZoom (state w))%Z)
                (zoomLevels w)) as Hup.
  fold (oldZoomIdx w) in Hlo, Hup.
  assert (Hz : zoom direction w = None <-> newZoom direction w = None).
  { unfold zoom. destruct (newZoom direction w); split; congruence. }
  rewrite Hz. unfold newZoom.
  destruct (Z.gtb_spec direction 0) as [ Hd | Hd ];
    destruct (Z.ltb_spec (oldZoomIdx w) 4) as [ Hi | Hi ]; cbn [andb].
  - rewrite get_none. split; [ intros [ ? | ? ]; lia | intros; lia ].
  - destruct (Z.ltb_spec direction 0); [ lia | ]. cbn [andb].
    split; [ discriminate | lia ].
  - destruct (Z.ltb_spec direction 0) as [ Hn | Hn ];
      destruct (Z.gtb_spec (oldZoomIdx w) 0) as [ Hp | Hp ]; cbn [andb].
    + rewrite get_none. split; [ intros [ ? | ? ]; lia | lia ].
    + split; [ discriminate | lia ].
    + split; [ discriminate | lia ].
    + split; [ discriminate | lia ].
  - destruct (Z.ltb_spec direction 0) as [ Hn | Hn ];
      destruct (Z.gtb_spec (oldZoomIdx w) 0) as [ Hp | Hp ]; cbn [andb].
    + rewrite get_none. split; [ intros [ ? | ? ]; lia | lia ].
    + split; [ discriminate | lia ].
    + split; [ discriminate | lia ].
    + split; [ discriminate | lia ].
Qed.

(** X6.  With distinct levels, a zoom-in request that has a next level
    below the cap followed by a zoom-out request comes back to the factor
    it started from; and if the starting instance was itself the result of
    a [zoom] call, it comes back to that very instance. *)
Theorem zoom_in_then_out (w : Workbench) (j : nat) :
  NoDup (zoomLevels w) ->
  Js.get (zoomLevels w) (Z.of_nat j) = Some (currentZoom (state w)) ->
  (j < 4)%nat -> (S j < length (zoomLevels w))%nat ->
  exists w1 w2,
    zoom 1 w = Some w1 /\
    Js.get (zoomLevels w) (Z.of_nat j + 1) = Some (currentZoom (state w1)) /\
    zoom (-1) w1 = Some w2 /\
    currentZoom (state w2) = currentZoom (state w) /\
    (forall direction w0, zoom direction w0 = Some w -> w2 = w).
Proof.
  intros Hnd Hj Hlt Hlen. rewrite get_of_nat in Hj.
  destruct (nth_error (zoomLevels w) (S j)) as [ z | ] eqn:Ez;
    [ | apply nth_error_None in Ez; lia ].
  assert (Hn : newZoom 1 w = Some z)
    by (now rewrite (newZoom_in_below_cap _ _ Hnd Hj Hlt)).
  pose proof (zoom_some _ _ _ Hn) as Hz1.
  destruct (zoom_inv _ _ _ Hz1) as (_ & Hlv & Hww & Hp).
  set (w1 := setState _ _) in *.
  assert (Hidx : oldZoomIdx w1 = Z.of_nat (S j)).
  { apply oldZoomIdx_nth; rewrite Hlv; [ exact Hnd | exact Ez ]. }
  assert (Hn2 : newZoom (-1) w1 = Some (currentZoom (state w))).
  { unfold newZoom. rewrite Hidx, Hlv.
    change ((-1 >? 0)%Z && (Z.of_nat (S j) <? 4)%Z) with false. cbv iota.
    change (-1 <? 0)%Z with true.
    destruct (Z.gtb_spec (Z.of_nat (S j)) 0); [ | lia ]. cbn [andb].
    replace (Z.of_nat (S j) - 1)%Z with (Z.of_nat j) by lia.
    now rewrite get_of_nat. }
  exists w1, (setState
                (with_zoom (currentZoom (state w))
                   (wrapperWidth (state w1)
                    * inject_Z (currentZoom (state w)) / duration (props w1))
                   (state w1))
                (set_widths (wrapperWidth (state w1)
                             * inject_Z (currentZoom (state w))) w1)).
  split; [ exact Hz1 | ].
  split.
  { replace (Z.of_nat j + 1)%Z with (Z.of_nat (S j)) by lia.
    now rewrite get_of_nat. }
  split; [ apply zoom_some, Hn2 | ].
  split; [ reflexivity | ].
  intros direction w0 H0. unfold zoom in H0.
  destruct (newZoom direction w0); [ | discriminate ].
  injection H0 as <-. reflexivity.
Qed.

Lemma zoom_in_then_out_witness :
  exists w1 w2,
    zoom 1 (Sample.zoomed 900 63) = Some w1 /\
    Js.get (zoomLevels (Sample.zoomed 900 63)) (Z.of_nat 1 + 1)
    = Some (currentZoom (state w1)) /\
    zoom (-1) w1 = Some w2 /\
    currentZoom (state w2) = currentZoom (state (Sample.zoomed 900 63)) /\
    (forall direction w0,
       zoom direction w0 = Some (Sample.zoomed 900 63) ->
       w2 = Sample.zoomed 900 63).
Proof.
  apply (zoom_in_then_out (Sample.zoomed 900 63) 1).
  - change (zoomLevels (Sample.zoomed 900 63))
      with [1; 2; 4; 8; 16; 32]%Z.
    repeat (constructor; [ simpl; intuition discriminate | ]).
    constructor.
  - reflexivity.
  - lia.
  - vm_compute. lia.
Defined.

(** ** The idle instance *)

(** X7.  While no drag is in progress ([isDrawing] is false), pointer
    moves and pointer-ups, which are listened to on the whole document,
    change nothing in the instance, not even the move counter, and make no
    call; a pointer-up always leaves the instance idle with the counter
    at 0. *)
Theorem idle_ignores_moves_and_ups (w : Workbench) (evs : list Event) :
  isDrawing w = false -> drawPxMove w = 0%nat ->
  Forall (fun ev => match ev with
                    | PointerMove _ _ | PointerUp _ _ => True
                    | _ => False
                    end) evs ->
  run evs w = (w, []) /\
  (forall any b e,
     isDrawing (fst (onEndNewAnnotation b e any)) = false /\
     drawPxMove (fst (onEndNewAnnotation b e any)) = 0%nat).
Proof.
  intros Hd Hn Hall. split.
  - induction Hall as [ | ev evs Hev _ IH ]; [ reflexivity | ].
    cbn [run].
    assert (E : dispatch ev w = (w, [])).
    { destruct ev as [ b e | b e | b e | b e ]; try contradiction;
        cbn [dispatch].
      - unfold onUpdateNewAnnotation. now rewrite Hd.
      - unfold onEndNewAnnotation. rewrite Hd. cbn [andb].
        destruct w; cbn in *. now subst. }
    now rewrite E, IH.
  - intros any b e. unfold onEndNewAnnotation.
    destruct (isDrawing any && (2 <? drawPxMove any)%nat); split; reflexivity.
Qed.

Lemma idle_ignores_moves_and_ups_witness :
  run [PointerMove Sample.bounds {| clientX := 10; clientY := 10 |};
       PointerUp Sample.bounds {| clientX := 10; clientY := 10 |};
       PointerMove Sample.bounds {| clientX := 20; clientY := 10 |};
       PointerMove Sample.bounds {| clientX := 30; clientY := 10 |};
       PointerMove Sample.bounds {| clientX := 40; clientY := 10 |};
       PointerUp Sample.bounds {| clientX := 40; clientY := 10 |}]
      (Sample.mounted 900 7)
  = (Sample.mounted 900 7, []).
Proof.
  apply (idle_ignores_moves_and_ups (Sample.mounted 900 7)
           [PointerMove Sample.bounds {| clientX := 10; clientY := 10 |};
            PointerUp Sample.bounds {| clientX := 10; clientY := 10 |};
            PointerMove Sample.bounds {| clientX := 20; clientY := 10 |};
            PointerMove Sample.bounds {| clientX := 30; clientY := 10 |};
            PointerMove Sample.bounds {| clientX := 40; clientY := 10 |};
            PointerUp Sample.bounds {| clientX := 40; clientY := 10 |}]).
  - reflexivity.
  - reflexivity.
  - repeat constructor.
Defined.


(** ** The zoom factor and the pyramid *)

Lemma sort_In (x : Z) (xs : list Z) : In x (Js.sort xs) <-> In x xs.
Proof.
  induction xs as [ | y ys IH ]; cbn [Js.sort fold_right]; [ tauto | ].
  fold (Js.sort ys). rewrite insert_In, IH. cbn [In]. intuition.
Qed.

Lemma flatMapM_cons {A B} (f : A -> Js.result (list B)) (x : A)
  (xs : list A) (out : list B) :
  Js.flatMapM f (x :: xs) = Js.Ok out ->
  exists o1 o2, f x = Js.Ok o1 /\ Js.flatMapM f xs = Js.Ok o2 /\
                out = o1 ++ o2.
Proof.
  unfold Js.flatMapM. cbn [Js.mapM].
  destruct (f x) as [ o1 | ]; cbn [Js.bind]; [ | discriminate ].
  destruct (Js.mapM f xs) as [ os | ]; cbn [Js.bind]; [ | discriminate ].
  intros [= <-]. exists o1, (concat os). repeat split.
Qed.

Lemma flatMapM_Forall {A B} (f : A -> Js.result (list B)) (P : B -> Prop)
  (xs : list A) :
  (forall x o, f x = Js.Ok o -> Forall P o) ->
  forall out, Js.flatMapM f xs = Js.Ok out -> Forall P out.
Proof.
  intros Hf. induction xs as [ | x xs IH ]; intros out Hout.
  - injection Hout as <-. constructor.
  - apply flatMapM_cons in Hout.
    destruct Hout as (o1 & o2 & H1 & H2 & ->).
    apply Forall_app. split; [ eapply Hf; eassumption | now apply IH ].
Qed.

Lemma log2_int_some (m : Z) (k : nat) :
  Js.log2_int m = Some k -> m = (2 ^ Z.of_nat k)%Z.
Proof.
  unfold Js.log2_int.
  destruct (Z.eqb_spec (2 ^ Z.log2 m) m) as [ E | ]; [ | discriminate ].
  intros [= <-]. rewrite Z2Nat.id by apply Z.log2_nonneg. now symmetry.
Qed.

(** The levels of one configuration: positive factors, and a first level
    of factor 1 that carries the parameters of the configuration. *)
Lemma buildConfDetails_levels (d : Q) (conf : SpectroUrlsParams)
  (levels : list SpectroDetails) :
  buildConfDetails d conf = Js.Ok levels ->
  Forall (fun details => (0 < zoom_factor details)%Z) levels /\
  exists first rest,
    levels = first :: rest /\ zoom_factor first = 1%Z /\
    nfft first = conf_nfft conf /\ winsize first = conf_winsize conf /\
    overlap first = conf_overlap conf.
Proof.
  unfold buildConfDetails.
  destruct (urls conf) as [ | u us ] eqn:Eu; [ discriminate | ].
  destruct (Js.log2_int (Z.of_nat (length (u :: us)) + 1)) as [ k | ] eqn:Ek;
    [ | discriminate ].
  intros [= <-]. split.
  - apply Forall_forall. intros level Hin.
    apply in_map_iff in Hin. destruct Hin as (z & <- & Hz).
    apply in_map_iff in Hz. destruct Hz as (i & <- & Hi).
    apply in_map_iff in Hi. destruct Hi as (n & <- & _).
    cbn [zoom_factor]. apply Z.pow_pos_nonneg; lia.
  - apply log2_int_some in Ek. cbn [length] in Ek.
    destruct k as [ | k ].
    + cbn in Ek. lia.
    + unfold Js.indices. cbn [seq map]. do 2 eexists.
      split; [ reflexivity | ]. repeat split.
Qed.

Lemma zoomLevels_unchanged (w w' : Workbench) :
  spectrograms (state w') = spectrograms (state w) ->
  currentParams (state w') = currentParams (state w) ->
  zoomLevels w' = zoomLevels w.
Proof.
  intros Hs Hc. unfold zoomLevels, getCurrentDetails. now rewrite Hs, Hc.
Qed.

Lemma buildSpectrogramsDetails_props (p p' : WorkbenchProps) :
  duration p' = duration p ->
  spectroUrlsParams p' = spectroUrlsParams p ->
  buildSpectrogramsDetails p' = buildSpectrogramsDetails p.
Proof. intros Hd Hs. unfold buildSpectrogramsDetails. now rewrite Hd, Hs. Qed.

Lemma pyramid_invariant_transfer (w w' : Workbench) :
  pyramid_invariant w ->
  duration (props w') = duration (props w) ->
  spectroUrlsParams (props w') = spectroUrlsParams (props w) ->
  spectrograms (state w') = spectrograms (state w) ->
  currentParams (state w') = currentParams (state w) ->
  In (currentZoom (state w')) (zoomLevels w) ->
  pyramid_invariant w'.
Proof.
  intros (Hb & _ & Hall) Hd Hu Hs Hc Hin. unfold pyramid_invariant.
  rewrite (zoomLevels_unchanged w w' Hs Hc), Hs.
  rewrite (buildSpectrogramsDetails_props _ _ Hd Hu).
  repeat split; assumption.
Qed.

Lemma pyramid_invariant_dispatch (ev : Event) (w : Workbench) :
  pyramid_invariant w -> pyramid_invariant (fst (dispatch ev w)).
Proof.
  intros Hk.
  assert (Hin : In (currentZoom (state w)) (zoomLevels w)) by apply Hk.
  destruct ev as [ b e | b e | b e | b e ]; cbn [dispatch].
  - apply (pyramid_invariant_transfer w); auto.
  - unfold onUpdateNewAnnotation.
    destruct (isDrawing w); [ | exact Hk ].
    destruct (2 <? _)%nat; apply (pyramid_invariant_transfer w); auto.
  - unfold onEndNewAnnotation.
    destruct (isDrawing w && (2 <? drawPxMove w)%nat);
      apply (pyramid_invariant_transfer w); auto.
  - exact Hk.
Qed.

Lemma pyramid_invariant_zoom (direction : Z) (w w' : Workbench) :
  pyramid_invariant w -> zoom direction w = Some w' -> pyramid_invariant w'.
Proof.
  intros Hk Hz.
  assert (Hin : In (currentZoom (state w)) (zoomLevels w)) by apply Hk.
  assert (Hnew : In (currentZoom (state w')) (zoomLevels w)).
  { destruct (zoom_inv _ _ _ Hz) as (Hn & _). unfold newZoom in Hn.
    destruct ((direction >? 0)%Z && (oldZoomIdx w <? 4)%Z).
    - apply get_some in Hn. eapply nth_error_In, Hn.
    - destruct ((direction <? 0)%Z && (oldZoomIdx w >? 0)%Z).
      + apply get_some in Hn. eapply nth_error_In, Hn.
      + injection Hn as <-. exact Hin. }
  unfold zoom in Hz. destruct (newZoom direction w); [ | discriminate ].
  injection Hz as <-.
  apply (pyramid_invariant_transfer w); auto.
Qed.

Lemma pyramid_invariant_perform (a : Action) (w w' : Workbench)
  (calls : list Call) :
  pyramid_invariant w -> perform a w = Some (w', calls) ->
  pyramid_invariant w'.
Proof.
  intros Hk Hp.
  assert (Hin : In (currentZoom (state w)) (zoomLevels w)) by apply Hk.
  destruct a as [ | ev | direction | event | t ]; cbn [perform] in Hp.
  - unfold componentDidMount in Hp.
    destruct Hk as (Hb & Hk2). rewrite Hb in Hp. cbn in Hp.
    injection Hp as <- _.
    apply (pyramid_invariant_transfer w); auto.
    repeat split; [ exact Hb | apply Hk2 | apply Hk2 ].
  - injection Hp as Hp.
    replace w' with (fst (dispatch ev w)) by now rewrite Hp.
    now apply pyramid_invariant_dispatch.
  - destruct (zoom direction w) as [ w1 | ] eqn:Hz; [ | discriminate ].
    cbn in Hp. injection Hp as <- _.
    eapply pyramid_invariant_zoom; eassumption.
  - unfold onWheelZoom in Hp.
    destruct (Js.ltb (deltaY event) 0).
    + destruct (zoom 1 w) as [ w1 | ] eqn:Hz; [ | discriminate ].
      cbn in Hp. injection Hp as <- _.
      eapply pyramid_invariant_zoom; eassumption.
    + destruct (Js.ltb 0 (deltaY event)).
      * destruct (zoom (-1) w) as [ w1 | ] eqn:Hz; [ | discriminate ].
        cbn in Hp. injection Hp as <- _.
        eapply pyramid_invariant_zoom; eassumption.
      * cbn in Hp. injection Hp as <- _. exact Hk.
  - injection Hp as <- _.
    apply (pyramid_invariant_transfer w); auto.
Qed.

Lemma pyramid_invariant_mount (p : WorkbenchProps) (w : Workbench) :
  spectroUrlsParams p <> [] ->
  componentDidMount (constructor p) = Js.Ok w ->
  pyramid_invariant w.
Proof.
  intros Hne Hm. unfold componentDidMount in Hm.
  cbn [props constructor] in Hm.
  destruct (buildSpectrogramsDetails p) as [ levels | ] eqn:Hb;
    [ | discriminate ].
  cbn in Hm. injection Hm as <-.
  unfold pyramid_invariant. cbn [props state spectrograms setState
    with_spectrograms constructor currentZoom].
  split; [ exact Hb | ]. split.
  - unfold zoomLevels, getCurrentDetails.
    cbn [props state spectrograms setState with_spectrograms constructor
         currentParams].
    apply sort_In, in_map_iff.
    unfold buildSpectrogramsDetails in Hb.
    destruct (spectroUrlsParams p) as [ | conf confs ] eqn:Ep;
      [ contradiction | ].
    apply flatMapM_cons in Hb. destruct Hb as (o1 & o2 & H1 & _ & ->).
    apply buildConfDetails_levels in H1.
    destruct H1 as (_ & first & rest & -> & Hz & Hn & Hw & Ho).
    exists first. split; [ exact Hz | ].
    apply filter_In. split; [ now left | ].
    unfold initialParams. rewrite Ep. cbn [cur_nfft cur_winsize cur_overlap].
    now rewrite Hn, Hw, Ho, !Z.eqb_refl.
  - unfold buildSpectrogramsDetails in Hb.
    eapply flatMapM_Forall; [ | exact Hb ].
    intros conf o Ho. now apply buildConfDetails_levels in Ho.
Qed.

(** X8.  Once a component whose props hold at least one configuration has
    mounted, whatever actions follow (as long as none throws or stores an
    undefined factor): the current zoom factor is one of the levels of the
    current resolution, and it is positive. *)
Theorem zoom_factor_available (p : WorkbenchProps) (acts : list Action)
  (w : Workbench) (calls : list Call) :
  spectroUrlsParams p <> [] ->
  perform_all (Mount :: acts) (constructor p) = Some (w, calls) ->
  In (currentZoom (state w)) (zoomLevels w) /\
  (0 < currentZoom (state w))%Z.
Proof.
  intros Hne Hrun. cbn [perform_all perform] in Hrun.
  destruct (componentDidMount (constructor p)) as [ w0 | ] eqn:Hm;
    [ | discriminate ].
  pose proof (pyramid_invariant_mount p w0 Hne Hm) as Hk0.
  destruct (perform_all acts w0) as [ [w1 c1] | ] eqn:Hr; [ | discriminate ].
  injection Hrun as <- _.
  assert (Hk : pyramid_invariant w1).
  { clear Hm. revert w0 w1 c1 Hk0 Hr.
    induction acts as [ | a acts IH ]; intros w0 w1 c1 Hk0 Hr.
    - injection Hr as <- _. exact Hk0.
    - cbn [perform_all] in Hr.
      destruct (perform a w0) as [ [wa ca] | ] eqn:Hp; [ | discriminate ].
      destruct (perform_all acts wa) as [ [wb cb] | ] eqn:Hrest;
        [ | discriminate ].
      injection Hr as <- _.
      eapply IH; [ | exact Hrest ].
      eapply pyramid_invariant_perform; eassumption. }
  destruct Hk as (_ & Hin & Hall). split; [ exact Hin | ].
  unfold zoomLevels in Hin. apply (proj1 (sort_In _ _)) in Hin.
  apply in_map_iff in Hin. destruct Hin as (details & <- & Hd).
  apply filter_In in Hd. destruct Hd as (Hd & _).
  rewrite Forall_forall in Hall. now apply Hall.
Qed.

Lemma zoom_factor_available_witness :
  exists w calls,
    perform_all
      [Mount; ZoomButton 1; Wheel (Sample.wheel (-3)); ZoomButton (-1);
       Mount; CurrentTime 30]
      (constructor (Sample.sprops 900 7)) = Some (w, calls) /\
    In (currentZoom (state w)) (zoomLevels w) /\
    (0 < currentZoom (state w))%Z.
Proof.
  destruct (perform_all
      [Mount; ZoomButton 1; Wheel (Sample.wheel (-3)); ZoomButton (-1);
       Mount; CurrentTime 30]
      (constructor (Sample.sprops 900 7))) as [ [w calls] | ] eqn:E.
  - exists w, calls. split; [ reflexivity | ].
    apply (zoom_factor_available (Sample.sprops 900 7)
             [ZoomButton 1; Wheel (Sample.wheel (-3)); ZoomButton (-1);
              Mount; CurrentTime 30] w calls);
      [ discriminate | exact E ].
  - vm_compute in E. discriminate.
Defined.

(** ** What the canvas shows of the pyramid *)






(** ** The axes *)

Lemma range_In (a b i : Z) : In i (range a b) <-> (a <= i <= b)%Z.
Proof.
  unfold range. rewrite in_map_iff. split.
  - intros (k & <- & Hk). apply in_seq in Hk. lia.
  - intros Hi. exists (Z.to_nat (i - a)). split; [ lia | ].
    apply in_seq. lia.
Qed.

Lemma range_by_In (a b i : Z) :
  In i (range_by a b 100)
  <-> (a <= i <= b)%Z /\ exists k, i = (a + 100 * Z.of_nat k)%Z.
Proof.
  unfold range_by. rewrite in_map_iff. split.
  - intros (k & <- & Hk). apply in_seq in Hk.
    split; [ | now exists k ].
    destruct (Z.le_gt_cases a b) as [ Hab | Hab ].
    + assert (Z.of_nat k <= (b - a) / 100)%Z by lia.
      pose proof (Z.mul_div_le (b - a) 100 ltac:(lia)). lia.
    + assert ((b - a) / 100 < 0)%Z by (apply Z.div_lt_upper_bound; lia).
      lia.
  - intros (Hi & k & ->). exists k. split; [ reflexivity | ].
    apply in_seq.
    assert (Z.of_nat k <= (b - a) / 100)%Z
      by (apply Z.div_le_lower_bound; lia).
    lia.
Qed.

Lemma flat_map_nil {A B} (f : A -> list B) (xs : list A) :
  (forall x, In x xs -> f x = []) -> flat_map f xs = [].
Proof.
  induction xs as [ | x xs IH ]; intros H; [ reflexivity | ].
  cbn [flat_map]. rewrite (H x) by now left.
  apply IH. intros y Hy. apply H. now right.
Qed.

Lemma timeAxisSteps_cases (w : Workbench) :
  timeAxisSteps w = (1, 5)%Z \/ timeAxisSteps w = (2, 5)%Z \/
  timeAxisSteps w = (4, 5)%Z \/ timeAxisSteps w = (10, 6)%Z.
Proof.
  unfold timeAxisSteps.
  destruct (Js.leb _ 60); [ now left | ].
  destruct (Js.ltb 60 _ && Js.leb _ 120); [ now right; left | ].
  destruct (Js.ltb 120 _ && Js.leb _ 240); [ now right; right; left | ].
  now right; right; right.
Qed.

Lemma rem_both (i a b l : Z) :
  (0 < a)%Z -> (0 < b)%Z -> Z.lcm a b = l ->
  (Z.rem i a = 0 /\ Z.rem i b = 0 <-> Z.rem i l = 0)%Z.
Proof.
  intros Ha Hb <-.
  assert (Hl : Z.lcm a b <> 0%Z) by (rewrite Z.lcm_eq_0; lia).
  rewrite !Z.rem_divide by lia. split.
  - intros [H1 H2]. now apply Z.lcm_least.
  - intros H. split.
    + eapply Z.divide_trans; [ apply Z.divide_lcm_l | exact H ].
    + eapply Z.divide_trans; [ apply Z.divide_lcm_r | exact H ].
Qed.

(** X10.  The time axis is labelled at the seconds of the visible range
    that are multiples of both steps, that is of their least common
    multiple: every 5 s, 10 s, 20 s or 30 s for the step pairs [(1, 5)],
    [(2, 5)], [(4, 5)] and [(10, 6)]; and a tick is drawn at every
    multiple of the minor step in the range, at [(i - startTime) *
    timePxRatio]. *)
Theorem time_axis_labels (bounds canvasBounds : ClientRect) (w : Workbench)
  (i : Z) :
  let startTime :=
    Qceiling (getTimeFromClientX canvasBounds w (rect_left bounds)) in
  let endTime :=
    Qfloor (getTimeFromClientX canvasBounds w (rect_right bounds)) in
  let step := fst (timeAxisSteps w) in
  let bigStep := snd (timeAxisSteps w) in
  In (Z.lcm step bigStep) [5; 10; 20; 30]%Z /\
  ((exists x y, In (fillText i x y) (renderTimeAxis bounds canvasBounds w))
   <-> (startTime <= i <= endTime)%Z /\ Z.rem i (Z.lcm step bigStep) = 0%Z) /\
  ((startTime <= i <= endTime)%Z /\ Z.rem i step = 0%Z ->
   exists wd h,
     In (fillRect (inject_Z (i - startTime) * timePxRatio (state w)) 0 wd h)
        (renderTimeAxis bounds canvasBounds w)).
Proof.
  cbv zeta. unfold renderTimeAxis.
  set (startTime :=
         Qceiling (getTimeFromClientX canvasBounds w (rect_left bounds))).
  set (endTime :=
         Qfloor (getTimeFromClientX canvasBounds w (rect_right bounds))).
  assert (Hsteps : exists step bigStep l,
            timeAxisSteps w = (step, bigStep) /\ (0 < step)%Z /\
            (0 < bigStep)%Z /\ Z.lcm step bigStep = l /\
            In l [5; 10; 20; 30]%Z).
  { destruct (timeAxisSteps_cases w) as [ -> | [ -> | [ -> | -> ] ] ];
      do 3 eexists; (split; [ reflexivity | ]);
      (split; [ lia | ]); (split; [ lia | ]);
      (split; [ reflexivity | ]); cbn; tauto. }
  destruct Hsteps as (step & bigStep & l & -> & Hs & Hb & Hl & Hin).
  cbn [fst snd]. rewrite Hl.
  split; [ exact Hin | ]. split; [ split | ].
  - intros (x & y & [ E | Hdraw ]); [ discriminate | ].
    apply in_flat_map in Hdraw. destruct Hdraw as (j & Hj & Hdraw).
    apply range_In in Hj.
    destruct (Z.eqb_spec (Z.rem j step) 0) as [ E1 | ]; [ | contradiction ].
    destruct (Z.eqb_spec (Z.rem j bigStep) 0) as [ E2 | ].
    + destruct Hdraw as [ E | [ E | [] ] ]; [ discriminate | ].
      assert (j = i) by congruence. subst j.
      split; [ exact Hj | ].
      now apply (rem_both i step bigStep l Hs Hb Hl).
    + destruct Hdraw as [ E | [] ]. discriminate.
  - intros (Hi & Hrem).
    apply (rem_both i step bigStep l Hs Hb Hl) in Hrem.
    destruct Hrem as (E1 & E2).
    do 2 eexists. right. apply in_flat_map. exists i.
    split; [ now apply range_In | ].
    rewrite E1, E2. cbn [Z.eqb]. right. left. reflexivity.
  - intros (Hi & E1).
    destruct (Z.eqb_spec (Z.rem i bigStep) 0) as [ E2 | E2 ].
    + exists 2, 15. right. apply in_flat_map. exists i.
      split; [ now apply range_In | ].
      rewrite E1, E2. cbn [Z.eqb]. left. reflexivity.
    + exists 1, 10. right. apply in_flat_map. exists i.
      split; [ now apply range_In | ].
      rewrite E1. cbn [Z.eqb].
      destruct (Z.eqb_spec (Z.rem i bigStep) 0); [ contradiction | ].
      left. reflexivity.
Qed.

(** X11.  [renderFreqAxis] walks the frequencies from the ceiling of
    [startFrequency] in steps of 100 Hz and marks those that are multiples
    of 500 Hz.  So when that first frequency is not a multiple of 100, the
    axis stays blank (only cleared); when it is, every multiple of 500 Hz
    up to the floor of [startFrequency + frequencyRange] gets a tick at
    [CANVAS_HEIGHT - (i - startFreq) * freqPxRatio - 2], and a label
    exactly at the multiples of 2000 Hz. *)
Theorem freq_axis_ticks (w : Workbench) :
  let startFreq := Qceiling (props_startFrequency (props w)) in
  let endFreq :=
    Qfloor (props_startFrequency (props w) + frequencyRange (props w)) in
  (Z.rem startFreq 100 <> 0%Z ->
   renderFreqAxis w = [clearRect 0 0 FREQ_AXIS_SIZE CANVAS_HEIGHT]) /\
  (Z.rem startFreq 100 = 0%Z ->
   forall i, (startFreq <= i <= endFreq)%Z -> Z.rem i 500 = 0%Z ->
     (exists x wd h,
        In (fillRect x (CANVAS_HEIGHT
                        - inject_Z (i - startFreq) * freqPxRatio (state w)
                        - 2) wd h)
           (renderFreqAxis w)) /\
     ((exists x y, In (fillText i x y) (renderFreqAxis w))
      <-> Z.rem i 2000 = 0%Z)).
Proof.
  cbv zeta. unfold renderFreqAxis.
  set (startFreq := Qceiling (props_startFrequency (props w))).
  set (endFreq :=
         Qfloor (props_startFrequency (props w) + frequencyRange (props w))).
  split.
  - intros Hoff. f_equal. apply flat_map_nil. intros i Hi.
    apply range_by_In in Hi. destruct Hi as (_ & k & ->).
    destruct (Z.eqb_spec (Z.rem (startFreq + 100 * Z.of_nat k) 500) 0)
      as [ E | ]; [ | reflexivity ].
    exfalso. apply Hoff.
    apply Z.rem_divide in E; [ | lia ]. apply Z.rem_divide; [ lia | ].
    destruct E as (q & Hq). exists (5 * q - Z.of_nat k)%Z. lia.
  - intros Hon i Hi E500.
    assert (Hin : In i (range_by startFreq endFreq 100)).
    { apply range_by_In. split; [ exact Hi | ].
      apply Z.rem_divide in Hon; [ | lia ].
      apply Z.rem_divide in E500; [ | lia ].
      destruct Hon as (q & Hq). destruct E500 as (r & Hr).
      exists (Z.to_nat (5 * r - q)). lia. }
    split; [ | split ].
    + destruct (Z.eqb_spec (Z.rem i 2000) 0) as [ E | E ].
      * exists (FREQ_AXIS_SIZE - 15), 15, 2. right.
        apply in_flat_map. exists i. split; [ exact Hin | ].
        rewrite E500, E. cbn [Z.eqb]. left. reflexivity.
      * exists (FREQ_AXIS_SIZE - 10), 10, 1. right.
        apply in_flat_map. exists i. split; [ exact Hin | ].
        rewrite E500. cbn [Z.eqb].
        destruct (Z.eqb_spec (Z.rem i 2000) 0); [ contradiction | ].
        left. reflexivity.
    + intros (x & y & [ E | Hdraw ]); [ discriminate | ].
      apply in_flat_map in Hdraw. destruct Hdraw as (j & Hj & Hdraw).
      destruct (Z.eqb_spec (Z.rem j 500) 0); [ | contradiction ].
      destruct (Z.eqb_spec (Z.rem j 2000) 0) as [ E2 | ].
      * destruct Hdraw as [ E | [ E | [] ] ]; [ discriminate | ].
        congruence.
      * destruct Hdraw as [ E | [] ]. discriminate.
    + intros E. do 2 eexists. right.
      apply in_flat_map. exists i. split; [ exact Hin | ].
      rewrite E500, E. cbn [Z.eqb]. right. left. reflexivity.
Qed.


Lemma time_axis_labels_witness :
  (exists x y,
     In (fillText 300 x y)
        (renderTimeAxis Sample.bounds Sample.bounds (Sample.mounted 900 7)))
  /\ ~ (exists x y,
     In (fillText 50 x y)
        (renderTimeAxis Sample.bounds Sample.bounds (Sample.mounted 900 7))).
Proof.
  destruct (time_axis_labels Sample.bounds Sample.bounds
              (Sample.mounted 900 7) 300) as (_ & H300 & _).
  destruct (time_axis_labels Sample.bounds Sample.bounds
              (Sample.mounted 900 7) 50) as (_ & H60 & _).
  split.
  - apply H300. vm_compute. intuition discriminate.
  - intros H. apply H60 in H. destruct H as (_ & H).
    vm_compute in H. discriminate.
Defined.

Lemma freq_axis_ticks_witness :
  renderFreqAxis off_grid = [clearRect 0 0 FREQ_AXIS_SIZE CANVAS_HEIGHT] /\
  (exists x y, In (fillText 4000 x y) (renderFreqAxis (Sample.mounted 900 7)))
  /\ ~ (exists x y,
          In (fillText 4500 x y) (renderFreqAxis (Sample.mounted 900 7))).
Proof.
  destruct (freq_axis_ticks off_grid) as (Hoff & _).
  destruct (freq_axis_ticks (Sample.mounted 900 7)) as (_ & Hon).
  split; [ apply Hoff; vm_compute; discriminate | ].
  destruct (Hon eq_refl 4000%Z) as (_ & H4000);
    [ vm_compute; intuition discriminate | reflexivity | ].
  destruct (Hon eq_refl 4500%Z) as (_ & H4500);
    [ vm_compute; intuition discriminate | reflexivity | ].
  split.
  - apply H4000. reflexivity.
  - intros H. apply H4500 in H. vm_compute in H. discriminate.
Defined.

(* ------------------------------------------------------------------ *)
(** * Properties of the annotation store and of the player *)

(** ** Lists of annotations *)

Lemma map_id_deactivate (anns : list Annotation) :
  map id (map (Annotator.assign_active false) anns) = map id anns.
Proof. rewrite map_map. now apply map_ext. Qed.

Lemma filter_active_deactivate (anns : list Annotation) :
  filter active (map (Annotator.assign_active false) anns) = [].
Proof. induction anns as [ | a anns IH ]; [ reflexivity | exact IH ]. Qed.

Lemma NoDup_map_filter {A B} (f : A -> B) (p : A -> bool) (xs : list A) :
  NoDup (map f xs) -> NoDup (map f (filter p xs)).
Proof.
  induction xs as [ | x xs IH ]; intros Hnd; [ constructor | ].
  cbn [map] in Hnd. inversion Hnd as [ | ? ? Hnotin Hrest ]; subst.
  cbn [filter]. destruct (p x); [ | now apply IH ].
  cbn [map]. constructor; [ | now apply IH ].
  intros Hin. apply Hnotin. apply in_map_iff in Hin.
  destruct Hin as (y & Hy & Hin). apply filter_In in Hin.
  apply in_map_iff. exists y. tauto.
Qed.

Lemma other_id_spec (i : string) (ann : Annotation) :
  Annotator.other_id i ann = true <-> id ann <> i.
Proof.
  unfold Annotator.other_id.
  destruct (String.eqb_spec (id ann) i); cbn; split; congruence.
Qed.

Lemma not_in_other_ids (i : string) (anns : list Annotation) :
  ~ In i (map id (filter (Annotator.other_id i) anns)).
Proof.
  intros Hin. apply in_map_iff in Hin. destruct Hin as (y & Hy & Hin).
  apply filter_In in Hin. destruct Hin as (_ & Hother).
  now apply other_id_spec in Hother.
Qed.

Lemma NoDup_snoc {A} (xs : list A) (x : A) :
  NoDup xs -> ~ In x xs -> NoDup (xs ++ [x]).
Proof.
  intros Hnd Hnotin. apply NoDup_app; [ exact Hnd | | ].
  - repeat constructor. intros [].
  - intros y Hy [ <- | [] ]. contradiction.
Qed.

Lemma filter_length_filter {A} (p q : A -> bool) (xs : list A) :
  (length (filter p (filter q xs)) <= length (filter p xs))%nat.
Proof.
  induction xs as [ | x xs IH ]; [ reflexivity | ].
  cbn [filter]. destruct (q x); cbn [filter]; destruct (p x);
    cbn [length]; lia.
Qed.

Lemma single_active (anns : list Annotation) (x y : Annotation) :
  (length (filter active anns) <= 1)%nat ->
  In x anns -> In y anns -> active x = true -> active y = true -> x = y.
Proof.
  intros Hlen Hx Hy Hax Hay.
  assert (Hfx : In x (filter active anns)) by (apply filter_In; tauto).
  assert (Hfy : In y (filter active anns)) by (apply filter_In; tauto).
  destruct (filter active anns) as [ | z [ | z' rest ] ];
    [ contradiction | | cbn in Hlen; lia ].
  destruct Hfx as [ <- | [] ]. destruct Hfy as [ <- | [] ]. reflexivity.
Qed.

Lemma same_id_same (anns : list Annotation) (x y : Annotation) :
  NoDup (map id anns) -> In x anns -> In y anns -> id x = id y -> x = y.
Proof.
  induction anns as [ | a anns IH ]; intros Hnd Hx Hy Hid; [ contradiction | ].
  cbn [map] in Hnd. inversion Hnd as [ | ? ? Hnotin Hrest ]; subst.
  destruct Hx as [ <- | Hx ]; destruct Hy as [ <- | Hy ].
  - reflexivity.
  - exfalso. apply Hnotin. rewrite Hid. now apply in_map.
  - exfalso. apply Hnotin. rewrite <- Hid. now apply in_map.
  - now apply IH.
Qed.

(** ** Activation *)


(** ** Sorting by start time *)

Lemma insertByStart_perm (a : Annotation) (anns : list Annotation) :
  Permutation (a :: anns) (Annotator.insertByStart a anns).
Proof.
  induction anns as [ | x anns IH ]; cbn [Annotator.insertByStart];
    [ reflexivity | ].
  destruct (Js.leb (startTime a) (startTime x)); [ reflexivity | ].
  rewrite perm_swap. now constructor.
Qed.

Lemma sortByStart_perm (anns : list Annotation) :
  Permutation anns (Annotator.sortByStart anns).
Proof.
  induction anns as [ | a anns IH ]; [ reflexivity | ].
  cbn [Annotator.sortByStart fold_right]. fold (Annotator.sortByStart anns).
  rewrite <- insertByStart_perm. now constructor.
Qed.



Lemma filter_perm_length {A} (p : A -> bool) (xs ys : list A) :
  Permutation xs ys -> length (filter p xs) = length (filter p ys).
Proof.
  induction 1 as [ | x xs ys _ IH | x y xs | xs ys zs _ IH1 _ IH2 ];
    cbn [filter].
  - reflexivity.
  - destruct (p x); cbn [length]; now rewrite IH.
  - destruct (p x), (p y); reflexivity.
  - congruence.
Qed.

(** ** Invariant of the store *)

Lemma store_ok_perm (s : Annotator.State) (anns : list Annotation) :
  Annotator.store_ok s -> Permutation (Annotator.annotations s) anns ->
  Annotator.store_ok (Annotator.setAnnotations anns s).
Proof.
  intros (Hnd & Hact) Hp. split; cbn [Annotator.annotations
    Annotator.setAnnotations].
  - eapply Permutation_NoDup; [ | exact Hnd ]. now apply Permutation_map.
  - now rewrite <- (filter_perm_length active _ _ Hp).
Qed.

Lemma store_ok_activate (a : Annotation) (s : Annotator.State) :
  NoDup (map id (Annotator.annotations s)) ->
  Annotator.store_ok (Annotator.activateAnnotation a s).
Proof.
  intros Hnd.
  unfold Annotator.activateAnnotation, Annotator.store_ok.
  cbn [Annotator.annotations Annotator.setAnnotations id
       Annotator.assign_active].
  split.
  - rewrite map_app, map_id_deactivate. cbn [map id].
    apply NoDup_snoc; [ now apply NoDup_map_filter | ].
    apply not_in_other_ids.
  - rewrite filter_app, filter_active_deactivate. cbn. lia.
Qed.

Lemma store_ok_same_annotations (s s' : Annotator.State) :
  Annotator.annotations s' = Annotator.annotations s ->
  Annotator.store_ok s -> Annotator.store_ok s'.
Proof. unfold Annotator.store_ok. now intros ->. Qed.

(** X13.  Unique ids and at most one active annotation are kept by every
    operation on the store: saving, activating, deleting, tagging, playing,
    pausing, progress, seeking, checking, rendering; and by an update,
    provided the updated annotation is inactive or takes the place of the
    stored active one ([updateAnnotation] stores the [active] flag it is
    given without looking at the others). *)
Theorem store_ok_preserved (op : Annotator.Op) (s s' : Annotator.State)
  (effects : list Annotator.Effect) :
  Annotator.store_ok s ->
  (forall a, op = Annotator.Update a -> active a = true ->
     exists x, In x (Annotator.annotations s) /\ id x = id a /\
               active x = true) ->
  Annotator.apply op s = Some (s', effects) ->
  Annotator.store_ok s'.
Proof.
  intros Hok Hupd Hop. pose proof Hok as (Hnd & Hact).
  destruct op as [ a | a | a | a | tag | [ a | ] | | seconds | t | now | ];
    cbn [Annotator.apply] in Hop.
  - unfold Annotator.saveAnnotation in Hop.
    destruct (Annotator.maxId _) as [ m | ]; [ | discriminate ].
    cbn [option_map] in Hop. injection Hop as <- _.
    apply store_ok_activate.
    destruct (Annotator.annotations s) eqn:E;
      cbn [Annotator.annotations Annotator.setToastMsg]; rewrite ?E;
      exact Hnd.
  - injection Hop as <- _. now apply store_ok_activate.
  - injection Hop as <- _. unfold Annotator.updateAnnotation.
    split; cbn [Annotator.annotations Annotator.setAnnotations].
    + rewrite map_app. cbn [map].
      apply NoDup_snoc; [ now apply NoDup_map_filter | ].
      apply not_in_other_ids.
    + rewrite filter_app, length_app. cbn [filter].
      destruct (active a) eqn:Ea; cbn [length].
      * destruct (Hupd a eq_refl Ea) as (x & Hx & Hid & Hax).
        destruct (filter active
                    (filter (Annotator.other_id (id a))
                            (Annotator.annotations s)))
          as [ | y rest ] eqn:Ef; [ cbn; lia | exfalso ].
        assert (Hy : In y (filter active
                    (filter (Annotator.other_id (id a))
                            (Annotator.annotations s))))
          by (rewrite Ef; now left).
        apply filter_In in Hy. destruct Hy as (Hy & Hay).
        apply filter_In in Hy. destruct Hy as (Hy & Hoy).
        apply other_id_spec in Hoy. apply Hoy.
        now rewrite (single_active _ y x Hact Hy Hx Hay Hax).
      * pose proof (filter_length_filter active
                      (Annotator.other_id (id a))
                      (Annotator.annotations s)). lia.
  - injection Hop as <- _. unfold Annotator.deleteAnnotation.
    split; cbn [Annotator.annotations Annotator.setAnnotations].
    + now apply NoDup_map_filter.
    + pose proof (filter_length_filter active
                    (Annotator.other_id (id a))
                    (Annotator.annotations s)). lia.
  - injection Hop as <- _. unfold Annotator.toggleTag.
    destruct (find active (Annotator.annotations s)) as [ x | ] eqn:Ef;
      [ | exact Hok ].
    destruct (find_some _ _ Ef) as (Hx & Hax).
    split; cbn [Annotator.annotations Annotator.setAnnotations
                Annotator.setToastMsg].
    + rewrite map_app. cbn [map id Annotator.assign_annotation].
      apply NoDup_snoc; [ now apply NoDup_map_filter | ].
      intros Hin. apply in_map_iff in Hin. destruct Hin as (y & Hid & Hy).
      apply filter_In in Hy. destruct Hy as (Hy & Hay).
      rewrite (same_id_same _ y x Hnd Hy Hx Hid), Hax in Hay.
      discriminate.
    + rewrite filter_app, length_app.
      cbn [filter active Annotator.assign_annotation]. rewrite Hax.
      assert (E : filter active
                    (filter (fun ann => negb (active ann))
                            (Annotator.annotations s)) = []).
      { clear. induction (Annotator.annotations s) as [ | y ys IH ];
          [ reflexivity | ].
        cbn [filter]. destruct (active y) eqn:Ey; cbn [negb filter];
          [ exact IH | ]. now rewrite Ey. }
      rewrite E. cbn. lia.
  - unfold Annotator.play in Hop. injection Hop as <- _.
    eapply store_ok_same_annotations;
      [ | apply (store_ok_activate a s Hnd) ]. reflexivity.
  - unfold Annotator.play in Hop. injection Hop as <- _. exact Hok.
  - unfold Annotator.pause in Hop. injection Hop as <- _. exact Hok.
  - unfold Annotator.updateProgress, Annotator.pause in Hop.
    destruct (_ && _); injection Hop as <- _; exact Hok.
  - unfold Annotator.seekTo, Annotator.updateProgress, Annotator.pause
      in Hop.
    destruct (_ && _); injection Hop as <- _; exact Hok.
  - unfold Annotator.checkAnnotations in Hop.
    destruct (filter _ (Annotator.annotations s)) as [ | first rest ].
    + unfold Annotator.submitAnnotations in Hop. injection Hop as <- _.
      apply store_ok_perm; [ exact Hok | apply sortByStart_perm ].
    + injection Hop as <- _.
      eapply store_ok_same_annotations;
        [ | apply (store_ok_activate first s Hnd) ]. reflexivity.
  - injection Hop as <- _. unfold Annotator.render.
    apply store_ok_perm; [ exact Hok | apply sortByStart_perm ].
Qed.


Lemma store_ok_preserved_witness :
  Annotator.store_ok (Annotator.toggleTag "whale" SampleStore.two) /\
  Annotator.store_ok
    (Annotator.updateAnnotation
       {| id := "2"; annotation := ""; startTime := 5; endTime := 11;
          startFrequency := 200; endFrequency := 500; active := true |}
       SampleStore.two).
Proof.
  assert (Hok : Annotator.store_ok SampleStore.two).
  { split.
    - change (map id (Annotator.annotations SampleStore.two))
        with ["1"; "2"]%string.
      repeat (constructor; [ simpl; intuition discriminate | ]).
      constructor.
    - vm_compute. lia. }
  split.
  - apply (store_ok_preserved (Annotator.ToggleTag "whale") SampleStore.two
             _ [] Hok); [ discriminate | reflexivity ].
  - apply (store_ok_preserved
             (Annotator.Update
                {| id := "2"; annotation := ""; startTime := 5;
                   endTime := 11; startFrequency := 200;
                   endFrequency := 500; active := true |})
             SampleStore.two _ [] Hok); [ | reflexivity ].
    intros a [= <-] _. eexists. split; [ right; left; reflexivity | ].
    split; reflexivity.
Defined.

(** ** Ids *)









Lemma filter_all {A} (p : A -> bool) (xs : list A) :
  (forall x, In x xs -> p x = true) -> filter p xs = xs.
Proof.
  induction xs as [ | x xs IH ]; intros H; [ reflexivity | ].
  cbn [filter]. rewrite (H x) by now left. f_equal.
  apply IH. intros y Hy. apply H. now right.
Qed.




(** ** Tags *)

Lemma filter_split_perm {A} (p : A -> bool) (xs : list A) :
  Permutation xs (filter (fun x => negb (p x)) xs ++ filter p xs).
Proof.
  induction xs as [ | x xs IH ]; [ reflexivity | ].
  cbn [filter]. destruct (p x); cbn [negb app].
  - now apply Permutation_cons_app.
  - now constructor.
Qed.

Lemma find_after_inactive (anns : list Annotation) (x : Annotation) :
  active x = true ->
  find active (filter (fun ann => negb (active ann)) anns ++ [x]) = Some x.
Proof.
  intros Hx. induction anns as [ | y anns IH ]; cbn [filter app find].
  - now rewrite Hx.
  - destruct (active y) eqn:Ey; cbn [negb]; [ exact IH | ].
    cbn [app find]. now rewrite Ey.
Qed.

Lemma filter_inactive_snoc (anns : list Annotation) (x : Annotation) :
  active x = true ->
  filter (fun ann => negb (active ann))
         (filter (fun ann => negb (active ann)) anns ++ [x])
  = filter (fun ann => negb (active ann)) anns.
Proof.
  intros Hx. rewrite filter_app. cbn [filter]. rewrite Hx. cbn [negb].
  rewrite app_nil_r. apply filter_all.
  intros y Hy. now apply filter_In in Hy.
Qed.

(** X15.  With unique ids and [x] the one active annotation,
    [toggleTag(tag)] gives [x] the tag, or no tag if it had this one,
    moves it to the end, keeps it active, clears the toast and loses no
    annotation.  Toggling the same tag a second time gives back the first
    tag only if that was [tag]; any other tag, once replaced, is gone and
    the annotation ends untagged.  Without an active annotation nothing
    changes. *)
Theorem toggleTag_on_active (tag : string) (s : Annotator.State)
  (x : Annotation) :
  Annotator.store_ok s ->
  In x (Annotator.annotations s) -> active x = true ->
  let inactive :=
    filter (fun ann => negb (active ann)) (Annotator.annotations s) in
  let s1 := Annotator.toggleTag tag s in
  let s2 := Annotator.toggleTag tag s1 in
  Annotator.annotations s1
  = inactive
    ++ [Annotator.assign_annotation
          (if (annotation x =? tag)%string then ""%string else tag) x] /\
  Annotator.toastMsg s1 = None /\
  Permutation (map id (Annotator.annotations s1))
              (map id (Annotator.annotations s)) /\
  Annotator.annotations s2
  = inactive
    ++ [Annotator.assign_annotation
          (if (annotation x =? tag)%string then tag else ""%string) x] /\
  (forall s0, filter active (Annotator.annotations s0) = [] ->
              Annotator.toggleTag tag s0 = s0).
Proof.
  intros (Hnd & Hact) Hx Hax. cbv zeta.
  assert (Hfind : find active (Annotator.annotations s) = Some x).
  { destruct (find active (Annotator.annotations s)) as [ y | ] eqn:Ef.
    - destruct (find_some _ _ Ef) as (Hy & Hay).
      f_equal. now apply (single_active _ y x Hact).
    - now rewrite (find_none _ _ Ef x Hx) in Hax. }
  assert (Hactive : filter active (Annotator.annotations s) = [x]).
  { assert (Hin : In x (filter active (Annotator.annotations s)))
      by (apply filter_In; tauto).
    destruct (filter active (Annotator.annotations s))
      as [ | z [ | z' rest ] ]; [ contradiction | | cbn in Hact; lia ].
    now destruct Hin as [ -> | [] ]. }
  assert (H1 : Annotator.annotations (Annotator.toggleTag tag s)
               = filter (fun ann => negb (active ann))
                        (Annotator.annotations s)
                 ++ [Annotator.assign_annotation
                       (if (annotation x =? tag)%string
                        then ""%string else tag) x]).
  { unfold Annotator.toggleTag. now rewrite Hfind. }
  split; [ exact H1 | ].
  split; [ unfold Annotator.toggleTag; now rewrite Hfind | ].
  split.
  { rewrite H1, map_app. cbn [map id Annotator.assign_annotation].
    apply Permutation_sym.
    etransitivity;
      [ apply (Permutation_map id
                 (filter_split_perm active (Annotator.annotations s))) | ].
    now rewrite map_app, Hactive. }
  split.
  { unfold Annotator.toggleTag at 1. rewrite H1.
    rewrite find_after_inactive by exact Hax.
    cbn [Annotator.annotations Annotator.setAnnotations
         Annotator.setToastMsg annotation Annotator.assign_annotation].
    rewrite filter_inactive_snoc by exact Hax.
    do 2 f_equal. unfold Annotator.assign_annotation; cbn.
    f_equal.
    destruct (String.eqb_spec (annotation x) tag) as [ E | E ].
    - destruct (String.eqb_spec ""%string tag) as [ E' | E' ];
        [ now rewrite <- E' | reflexivity ].
    - now rewrite String.eqb_refl. }
  intros s0 Hnone. unfold Annotator.toggleTag.
  destruct (find active (Annotator.annotations s0)) as [ y | ] eqn:Ef;
    [ | reflexivity ].
  destruct (find_some _ _ Ef) as (Hy & Hay).
  assert (Hin : In y (filter active (Annotator.annotations s0)))
    by (apply filter_In; tauto).
  rewrite Hnone in Hin. contradiction.
Qed.

Lemma toggleTag_on_active_witness :
  Annotator.annotations (Annotator.toggleTag "whale" SampleStore.two)
  = filter (fun ann => negb (active ann))
           (Annotator.annotations SampleStore.two)
    ++ [Annotator.assign_annotation "whale"
          (Annotator.assign_active true
             (Annotator.assign_id "2" (SampleStore.drawn 4 10)))].
Proof.
  apply (toggleTag_on_active "whale" SampleStore.two
           (Annotator.assign_active true
              (Annotator.assign_id "2" (SampleStore.drawn 4 10)))).
  - split.
    + change (map id (Annotator.annotations SampleStore.two))
        with ["1"; "2"]%string.
      repeat (constructor; [ simpl; intuition discriminate | ]).
      constructor.
    + vm_compute. lia.
  - right. left. reflexivity.
  - reflexivity.
Defined.

(** ** Submission *)






(** ** The player *)

Lemma truthy_spec (t : Q) :
  Annotator.truthy (Some t) = true <-> ~ t == 0.
Proof.
  cbn [Annotator.truthy]. destruct (Qeq_bool t 0) eqn:E; cbn [negb].
  - apply Qeq_bool_iff in E. split; [ discriminate | contradiction ].
  - split; [ intros _ H; apply Qeq_bool_iff in H; congruence | reflexivity ].
Qed.

(** X17.  Playing an annotation seeks the audio to its start, starts it
    and makes the annotation the active one.  From then on a progress
    report beyond the end of the annotation pauses the audio, clears the
    stop time and does not move the displayed time, while a report up to
    the end only moves the displayed time.  An annotation that ends at 0
    sets no stop: every report moves the time.  After [pause] no report
    stops anything. *)
Theorem play_stops_at_end (a : Annotation) (s : Annotator.State)
  (seconds : Q) :
  let s1 := fst (Annotator.play (Some a) s) in
  snd (Annotator.play (Some a) s)
  = [Annotator.audioSetCurrentTime (startTime a); Annotator.audioPlay] /\
  Annotator.isPlaying s1 = true /\
  filter active (Annotator.annotations s1)
  = [Annotator.assign_active true a] /\
  (~ endTime a == 0 -> endTime a < seconds ->
   Annotator.updateProgress seconds s1
   = (Annotator.setPlaying false None s1, [Annotator.audioPause])) /\
  (seconds <= endTime a ->
   Annotator.updateProgress seconds s1
   = (Annotator.setCurrentTime seconds s1, [])) /\
  (endTime a == 0 ->
   Annotator.updateProgress seconds s1
   = (Annotator.setCurrentTime seconds s1, [])) /\
  (forall s0,
     Annotator.updateProgress seconds (fst (Annotator.pause s0))
     = (Annotator.setCurrentTime seconds (fst (Annotator.pause s0)), [])).
Proof.
  cbv zeta. unfold Annotator.play. cbn [fst snd app option_map].
  split; [ reflexivity | ]. split; [ reflexivity | ].
  split.
  { unfold Annotator.activateAnnotation.
    cbn [Annotator.annotations Annotator.setAnnotations
         Annotator.setPlaying].
    now rewrite filter_app, filter_active_deactivate. }
  unfold Annotator.updateProgress.
  cbn [Annotator.stopTime Annotator.setPlaying].
  split; [ | split; [ | split ] ].
  - intros Hne Hlt. apply truthy_spec in Hne. apply ltb_lt in Hlt.
    now rewrite Hne, Hlt.
  - intros Hle. apply ltb_ge in Hle. now rewrite Hle, andb_false_r.
  - intros Hz.
    assert (E : Annotator.truthy (Some (endTime a)) = false).
    { destruct (Annotator.truthy (Some (endTime a))) eqn:E;
        [ | reflexivity ].
      apply truthy_spec in E. contradiction. }
    now rewrite E.
  - intros s0. reflexivity.
Qed.

Lemma play_stops_at_end_witness :
  Annotator.updateProgress 51
    (fst (Annotator.play (Some (SampleStore.drawn 40 50)) SampleStore.two))
  = (Annotator.setPlaying false None
       (fst (Annotator.play (Some (SampleStore.drawn 40 50))
                            SampleStore.two)),
     [Annotator.audioPause]) /\
  Annotator.updateProgress 45
    (fst (Annotator.play (Some (SampleStore.drawn 40 50)) SampleStore.two))
  = (Annotator.setCurrentTime 45
       (fst (Annotator.play (Some (SampleStore.drawn 40 50))
                            SampleStore.two)),
     []).
Proof.
  destruct (play_stops_at_end (SampleStore.drawn 40 50) SampleStore.two 51)
    as (_ & _ & _ & Hstop & _).
  destruct (play_stops_at_end (SampleStore.drawn 40 50) SampleStore.two 45)
    as (_ & _ & _ & _ & Hgo & _).
  split; [ apply Hstop | apply Hgo ];
    first [ reflexivity | vm_compute; discriminate ].
Defined.

(* ------------------------------------------------------------------ *)
(** * The Workbench and its parent together *)










(* ------------------------------------------------------------------ *)
(** * Timestamps *)




















